(** * AvatarHashMap: the avatar registry and its packet handlers

A shallow embedding of [libraries/avatars/src/AvatarHashMap.cpp]: the
session-keyed table of avatar records, the four packet listeners that
mutate it (bulk data, identity, billboard, kill) and the slot that
remembers the previous session id of the local participant.

Each C++ method becomes a function that takes the object ([this]) and
returns the object after the call, next to the method's result when it
has one.  Qt's value classes are modelled by the data they hold. *)

From Stdlib Require Import String.
From Stdlib Require Import List ZArith NArith Lia Bool PeanoNat.
From Stdlib Require Import Strings.Byte.
From Stdlib Require Import Floats.SpecFloat.
Import ListNotations.

Set Implicit Arguments.

(** ** Qt value types *)

Module Qt.

(** [QByteArray]: a sequence of bytes. *)
Definition QByteArray : Type := list byte.

Definition QByteArray_eq_dec : forall a b : QByteArray, {a = b} + {a <> b} :=
  list_eq_dec Byte.byte_eq_dec.

(** [QByteArray::fromRawData(data, size)]: the first [size] bytes at [data]. *)
Definition QByteArray_fromRawData (data : QByteArray) (size : nat) : QByteArray :=
  firstn size data.

(** [QUuid]: a 128-bit identifier, held as the number its 16 bytes spell in
    network byte order.  The default-constructed (null) id is all zero. *)
Definition QUuid : Type := N.

Definition QUuid_null : QUuid := 0%N.

Definition QUuid_eqb (a b : QUuid) : bool := N.eqb a b.

(** [QUuid::fromRfc4122]: 16 bytes in network order give the id; any other
    length gives the null id. *)
Definition QUuid_fromRfc4122 (bytes : QByteArray) : QUuid :=
  if Nat.eqb (length bytes) 16
  then fold_left (fun acc b => (acc * 256 + Byte.to_N b)%N) bytes 0%N
  else QUuid_null.

(** [QUuid::toRfc4122]: the 16 bytes of the id, most significant first. *)
Fixpoint bigEndian (width : nat) (n : N) : QByteArray :=
  match width with
  | O => []
  | S width' =>
      bigEndian width' (n / 256)%N ++
      [match Byte.of_N (n mod 256)%N with Some b => b | None => x00 end]
  end.

Definition QUuid_toRfc4122 (id : QUuid) : QByteArray := bigEndian 16 id.

Definition QUrl : Type := string.
Definition QString : Type := string.

(** *** [QHash<QUuid, T>]

The table is kept as an association list so that "one item per key" is
a property to be proved of the code that fills it rather than one the
representation grants.  Iteration order is the list order; nothing
below depends on it. *)
Section QHash.
Variable T : Type.

Definition QHash : Type := list (QUuid * T).

Definition QHash_keys (h : QHash) : list QUuid := map fst h.

Definition QHash_values (h : QHash) : list T := map snd h.

(** [value(key)]: the item stored under [key], if any (the C++ call
    returns a default-constructed [T], a null pointer for the table of
    avatars, when there is none). *)
Fixpoint QHash_value (h : QHash) (key : QUuid) : option T :=
  match h with
  | [] => None
  | (k, v) :: h' => if QUuid_eqb k key then Some v else QHash_value h' key
  end.

Definition QHash_contains (h : QHash) (key : QUuid) : bool :=
  match QHash_value h key with Some _ => true | None => false end.

(** The item under [key] rewritten by [f]; the table is left alone when
    the key is absent.  This is what a call through the shared pointer
    obtained from [value(key)] does to the table's view of the object. *)
Fixpoint QHash_modify (h : QHash) (key : QUuid) (f : T -> T) : QHash :=
  match h with
  | [] => []
  | (k, v) :: h' =>
      if QUuid_eqb k key then (k, f v) :: h'
      else (k, v) :: QHash_modify h' key f
  end.

(** [insert(key, value)]: replaces the value of an item already stored
    under [key], adds a new item otherwise. *)
Definition QHash_insert (h : QHash) (key : QUuid) (value : T) : QHash :=
  if QHash_contains h key
  then QHash_modify h key (fun _ => value)
  else (key, value) :: h.

(** [remove(key)]: removes every item stored under [key]. *)
Definition QHash_remove (h : QHash) (key : QUuid) : QHash :=
  filter (fun kv => negb (QUuid_eqb (fst kv) key)) h.
End QHash.

End Qt.
Import Qt.

(** ** The packet as a read cursor over its payload *)

Module Packet.

(** Modelled from the spec: [NLPacket] (libraries/networking) is a
    [QIODevice] over the payload; only the payload bytes and the read
    position matter to the handlers. *)
Record NLPacket : Type := mkPacket {
  getPayload : QByteArray;
  pos : nat
}.

Definition newPacket (payload : QByteArray) : NLPacket := mkPacket payload 0.

(** [bytesAvailable()]: the payload bytes after the cursor. *)
Definition bytesAvailable (p : NLPacket) : nat :=
  length (getPayload p) - pos p.

(** [read(maxSize)]: at most [maxSize] bytes from the cursor on, fewer when
    fewer are left; the cursor moves past what was read. *)
Definition read (maxSize : nat) (p : NLPacket) : QByteArray * NLPacket :=
  let data := firstn maxSize (skipn (pos p) (getPayload p)) in
  (data, mkPacket (getPayload p) (pos p + length data)).

(** [seek(pos)]: moves the cursor; a negative position is refused and the
    cursor stays.  A position past the end is accepted and leaves nothing
    available. *)
Definition seek (newPos : Z) (p : NLPacket) : NLPacket :=
  if (newPos <? 0)%Z then p else mkPacket (getPayload p) (Z.to_nat newPos).

End Packet.
Import Packet.

(** Modelled from the spec: [NUM_BYTES_RFC4122_UUID] (UUID.h), the 16 bytes
    of a session id on the wire. *)
Definition NUM_BYTES_RFC4122_UUID : nat := 16.

(** A node of the node list, by handle; [None] is a null pointer. *)
Definition SharedNodePointer : Type := option nat.

(** ** Avatar records *)

(** The fields a setter of [AvatarData] can write. *)
Inductive AvatarField : Type :=
| FSessionUUID | FOwningAvatarMixer | FFaceModelURL | FSkeletonModelURL
| FAttachmentData | FDisplayName | FBillboard.

Definition AvatarField_eq_dec (a b : AvatarField) : {a = b} + {a <> b}.
Proof. decide equality. Defined.

Section Registry.

(** [glm::vec3], its zero, [float] with its [<], and [glm::distance]. *)
Variable vec3 : Type.
Variable vec3_zero : vec3.
Variable float : Type.
Variable float_lt : float -> float -> bool.
Variable glm_distance : vec3 -> vec3 -> float.

(** [AttachmentData] with its [operator==]. *)
Variable AttachmentData : Type.
Variable AttachmentData_eq_dec :
  forall a b : AttachmentData, {a = b} + {a <> b}.

(** Modelled from the spec: [AvatarData] (AvatarData.h) is declared
    outside the files at hand.  The record holds the fields of the spec's
    data model under the names of their getters; [setterCalls] lists the
    setters called on the object, newest first (the change counter of the
    spec's testable properties), so that writing a value equal to the
    stored one is still seen as a write. *)
Record AvatarData : Type := mkAvatarData {
  getSessionUUID : QUuid;
  getOwningAvatarMixer : SharedNodePointer;
  getPosition : vec3;
  getFaceModelURL : QUrl;
  getSkeletonModelURL : QUrl;
  getAttachmentData : list AttachmentData;
  getDisplayName : QString;
  getBillboard : QByteArray;
  setterCalls : list AvatarField
}.

(** Modelled from the spec: the default-constructed record (null id, no
    owner, zero position, empty locators, attachments, name and blob). *)
Definition AvatarData_new : AvatarData :=
  mkAvatarData QUuid_null None vec3_zero EmptyString EmptyString [] EmptyString [] [].

(** Modelled from the spec: [AvatarData::setSessionUUID] (AvatarData.h is not
    among the files); like every setter below it stores its argument in its
    field and records the call. *)
Definition setSessionUUID (v : QUuid) (a : AvatarData) : AvatarData :=
  mkAvatarData v (getOwningAvatarMixer a) (getPosition a) (getFaceModelURL a)
    (getSkeletonModelURL a) (getAttachmentData a) (getDisplayName a)
    (getBillboard a) (FSessionUUID :: setterCalls a).

(** Modelled from the spec: [AvatarData::setOwningAvatarMixer], a plain write of the field. *)
Definition setOwningAvatarMixer (v : SharedNodePointer) (a : AvatarData) : AvatarData :=
  mkAvatarData (getSessionUUID a) v (getPosition a) (getFaceModelURL a)
    (getSkeletonModelURL a) (getAttachmentData a) (getDisplayName a)
    (getBillboard a) (FOwningAvatarMixer :: setterCalls a).

(** Modelled from the spec: [AvatarData::setFaceModelURL], a plain write of the field. *)
Definition setFaceModelURL (v : QUrl) (a : AvatarData) : AvatarData :=
  mkAvatarData (getSessionUUID a) (getOwningAvatarMixer a) (getPosition a) v
    (getSkeletonModelURL a) (getAttachmentData a) (getDisplayName a)
    (getBillboard a) (FFaceModelURL :: setterCalls a).

(** Modelled from the spec: [AvatarData::setSkeletonModelURL], a plain write of the field. *)
Definition setSkeletonModelURL (v : QUrl) (a : AvatarData) : AvatarData :=
  mkAvatarData (getSessionUUID a) (getOwningAvatarMixer a) (getPosition a)
    (getFaceModelURL a) v (getAttachmentData a) (getDisplayName a)
    (getBillboard a) (FSkeletonModelURL :: setterCalls a).

(** Modelled from the spec: [AvatarData::setAttachmentData], a plain write of the field. *)
Definition setAttachmentData (v : list AttachmentData) (a : AvatarData) : AvatarData :=
  mkAvatarData (getSessionUUID a) (getOwningAvatarMixer a) (getPosition a)
    (getFaceModelURL a) (getSkeletonModelURL a) v (getDisplayName a)
    (getBillboard a) (FAttachmentData :: setterCalls a).

(** Modelled from the spec: [AvatarData::setDisplayName], a plain write of the field. *)
Definition setDisplayName (v : QString) (a : AvatarData) : AvatarData :=
  mkAvatarData (getSessionUUID a) (getOwningAvatarMixer a) (getPosition a)
    (getFaceModelURL a) (getSkeletonModelURL a) (getAttachmentData a) v
    (getBillboard a) (FDisplayName :: setterCalls a).

(** Modelled from the spec: [AvatarData::setBillboard], a plain write of the field. *)
Definition setBillboard (v : QByteArray) (a : AvatarData) : AvatarData :=
  mkAvatarData (getSessionUUID a) (getOwningAvatarMixer a) (getPosition a)
    (getFaceModelURL a) (getSkeletonModelURL a) (getAttachmentData a)
    (getDisplayName a) v (FBillboard :: setterCalls a).

(** [AvatarData::parseDataFromBuffer] (AvatarData.cpp, not among the files):
    the object after parsing and the number of bytes it reports as read. *)
Variable parseDataFromBuffer : AvatarData -> QByteArray -> AvatarData * Z.

(** One tuple of an identity packet. *)
Record IdentityTuple : Type := mkIdentity {
  id_sessionUUID : QUuid;
  id_faceMeshURL : QUrl;
  id_skeletonURL : QUrl;
  id_attachmentData : list AttachmentData;
  id_displayName : QString
}.

(** The [QDataStream] over an identity packet: the tuples that the reads
    [identityStream >> sessionUUID >> faceMeshURL >> skeletonURL >>
    attachmentData >> displayName] yield, one per turn of the loop, until
    [atEnd()]. *)
Variable readIdentityStream : NLPacket -> list IdentityTuple.

(** ** The registry object *)

Record AvatarHashMap : Type := mkAvatarHashMap {
  _avatarHash : QHash AvatarData;
  _lastOwnerSessionUUID : QUuid
}.

(** The object as constructed: an empty table and a null previous id. *)
Definition AvatarHashMap_new : AvatarHashMap := mkAvatarHashMap [] QUuid_null.

Definition withAvatarHash (h : QHash AvatarData) (this : AvatarHashMap) : AvatarHashMap :=
  mkAvatarHashMap h (_lastOwnerSessionUUID this).

(** A method called through the shared pointer of the avatar stored under
    [sessionUUID]: the stored object is the one that changes. *)
Definition viaPointer (sessionUUID : QUuid) (method : AvatarData -> AvatarData)
    (this : AvatarHashMap) : AvatarHashMap :=
  withAvatarHash (QHash_modify (_avatarHash this) sessionUUID method) this.

(** [isAvatarInRange]: the [foreach] over the stored avatars, left at the
    first one closer than [range]. *)
Fixpoint isAvatarInRange_foreach (avatars : list AvatarData)
    (position : vec3) (range : float) : bool :=
  match avatars with
  | [] => false
  | sharedAvatar :: rest =>
      let avatarPosition := getPosition sharedAvatar in
      let distance := glm_distance avatarPosition position in
      if float_lt distance range then true
      else isAvatarInRange_foreach rest position range
  end.

Definition isAvatarInRange (this : AvatarHashMap) (position : vec3) (range : float)
    : bool * AvatarHashMap :=
  (isAvatarInRange_foreach (QHash_values (_avatarHash this)) position range, this).

Definition newSharedAvatar : AvatarData := AvatarData_new.

Definition addAvatar (this : AvatarHashMap) (sessionUUID : QUuid)
    (mixerWeakPointer : SharedNodePointer) : AvatarData * AvatarHashMap :=
  let avatar := newSharedAvatar in
  let avatar := setSessionUUID sessionUUID avatar in
  let avatar := setOwningAvatarMixer mixerWeakPointer avatar in
  (avatar, withAvatarHash (QHash_insert (_avatarHash this) sessionUUID avatar) this).

(** The record [addAvatar] stores for [sessionUUID]. *)
Definition added (sessionUUID : QUuid) (mixerWeakPointer : SharedNodePointer) : AvatarData :=
  setOwningAvatarMixer mixerWeakPointer (setSessionUUID sessionUUID newSharedAvatar).

(** The creation path shared by the three handlers that create records:
    [avatar = _avatarHash.value(sessionUUID); if (!avatar) avatar =
    addAvatar(sessionUUID, sendingNode);]. *)
Definition valueOrAddAvatar (this : AvatarHashMap) (sessionUUID : QUuid)
    (sendingNode : SharedNodePointer) : AvatarData * AvatarHashMap :=
  match QHash_value (_avatarHash this) sessionUUID with
  | Some avatar => (avatar, this)
  | None => addAvatar this sessionUUID sendingNode
  end.

(** *** Bulk avatar data *)

(** The buffer both branches hand to the parser:
    [QByteArray::fromRawData(packet->getPayload(), packet->pos())]. *)
Definition parseBuffer (packet : NLPacket) : QByteArray :=
  QByteArray_fromRawData (getPayload packet) (pos packet).

(** One turn of the [while] loop of [processAvatarDataPacket]. *)
Definition processAvatarDataPacket_body (this : AvatarHashMap) (packet : NLPacket)
    (sendingNode : SharedNodePointer) : AvatarHashMap * NLPacket :=
  let (bytes, packet) := read NUM_BYTES_RFC4122_UUID packet in
  let sessionUUID := QUuid_fromRfc4122 bytes in
  if negb (QUuid_eqb sessionUUID (_lastOwnerSessionUUID this)) then
    let (avatar, this) := valueOrAddAvatar this sessionUUID sendingNode in
    let (parsed, bytesRead) := parseDataFromBuffer avatar (parseBuffer packet) in
    (viaPointer sessionUUID (fun _ => parsed) this,
     seek (Z.of_nat (pos packet) + bytesRead) packet)
  else
    let dummyData := AvatarData_new in
    let (_, bytesRead) := parseDataFromBuffer dummyData (parseBuffer packet) in
    (this, seek (Z.of_nat (pos packet) + bytesRead) packet).

(** The loop, with a bound on its turns; [None] when the bound is reached
    with bytes still available. *)
Fixpoint processAvatarDataPacket_loop (fuel : nat) (this : AvatarHashMap)
    (packet : NLPacket) (sendingNode : SharedNodePointer)
    : option (AvatarHashMap * NLPacket) :=
  if Nat.eqb (bytesAvailable packet) 0 then Some (this, packet)
  else
    match fuel with
    | O => None
    | S fuel' =>
        let (this', packet') := processAvatarDataPacket_body this packet sendingNode in
        processAvatarDataPacket_loop fuel' this' packet' sendingNode
    end.

(** The state after [n] turns of the loop body, whatever the loop test. *)
Fixpoint processAvatarDataPacket_turns (n : nat) (this : AvatarHashMap)
    (packet : NLPacket) (sendingNode : SharedNodePointer) : AvatarHashMap * NLPacket :=
  match n with
  | O => (this, packet)
  | S n' =>
      let (this', packet') := processAvatarDataPacket_body this packet sendingNode in
      processAvatarDataPacket_turns n' this' packet' sendingNode
  end.

(** The session id that a turn of the loop reads at the cursor. *)
Definition subRecordId (packet : NLPacket) : QUuid :=
  QUuid_fromRfc4122 (fst (read NUM_BYTES_RFC4122_UUID packet)).

(** The cursor after that read. *)
Definition afterId (packet : NLPacket) : NLPacket :=
  snd (read NUM_BYTES_RFC4122_UUID packet).

(** The value of the local [bytesRead] in a turn of the loop: what the
    parser reports, on the stored or new avatar for a peer and on the dummy
    for the previous own id. *)
Definition bytesReadOf (this : AvatarHashMap) (packet : NLPacket)
    (sendingNode : SharedNodePointer) : Z :=
  let sessionUUID := subRecordId packet in
  if negb (QUuid_eqb sessionUUID (_lastOwnerSessionUUID this)) then
    snd (parseDataFromBuffer (fst (valueOrAddAvatar this sessionUUID sendingNode))
           (parseBuffer (afterId packet)))
  else
    snd (parseDataFromBuffer AvatarData_new (parseBuffer (afterId packet))).

(** [processAvatarDataPacket]: one turn per available byte is enough when
    the parser never reports a negative count
    ([processAvatarDataPacket_returns]). *)
Definition processAvatarDataPacket (this : AvatarHashMap) (packet : NLPacket)
    (sendingNode : SharedNodePointer) : option AvatarHashMap :=
  option_map fst
    (processAvatarDataPacket_loop (bytesAvailable packet) this packet sendingNode).

(** *** Identity *)

(** The four guarded writes of one turn of the identity loop. *)
Definition applyIdentity (t : IdentityTuple) (avatar : AvatarData) : AvatarData :=
  let avatar :=
    if string_dec (getFaceModelURL avatar) (id_faceMeshURL t) then avatar
    else setFaceModelURL (id_faceMeshURL t) avatar in
  let avatar :=
    if string_dec (getSkeletonModelURL avatar) (id_skeletonURL t) then avatar
    else setSkeletonModelURL (id_skeletonURL t) avatar in
  let avatar :=
    if list_eq_dec AttachmentData_eq_dec (getAttachmentData avatar) (id_attachmentData t)
    then avatar
    else setAttachmentData (id_attachmentData t) avatar in
  if string_dec (getDisplayName avatar) (id_displayName t) then avatar
  else setDisplayName (id_displayName t) avatar.

(** The fields of [avatar] whose stored value differs from the one in the
    tuple, in the order the setter calls are recorded (newest first). *)
Definition differingFields (t : IdentityTuple) (avatar : AvatarData) : list AvatarField :=
  (if string_dec (getDisplayName avatar) (id_displayName t) then [] else [FDisplayName]) ++
  (if list_eq_dec AttachmentData_eq_dec (getAttachmentData avatar) (id_attachmentData t)
   then [] else [FAttachmentData]) ++
  (if string_dec (getSkeletonModelURL avatar) (id_skeletonURL t) then [] else [FSkeletonModelURL]) ++
  (if string_dec (getFaceModelURL avatar) (id_faceMeshURL t) then [] else [FFaceModelURL]).

(** One turn of the [while] loop of [processAvatarIdentityPacket]. *)
Definition processAvatarIdentityPacket_body (sendingNode : SharedNodePointer)
    (this : AvatarHashMap) (t : IdentityTuple) : AvatarHashMap :=
  let (_, this) := valueOrAddAvatar this (id_sessionUUID t) sendingNode in
  viaPointer (id_sessionUUID t) (applyIdentity t) this.

Definition processAvatarIdentityPacket (this : AvatarHashMap) (packet : NLPacket)
    (sendingNode : SharedNodePointer) : AvatarHashMap :=
  fold_left (processAvatarIdentityPacket_body sendingNode)
    (readIdentityStream packet) this.

(** *** Billboard *)

Definition applyBillboard (billboard : QByteArray) (avatar : AvatarData) : AvatarData :=
  if QByteArray_eq_dec (getBillboard avatar) billboard then avatar
  else setBillboard billboard avatar.

Definition processAvatarBillboardPacket (this : AvatarHashMap) (packet : NLPacket)
    (sendingNode : SharedNodePointer) : AvatarHashMap :=
  let (bytes, packet) := read NUM_BYTES_RFC4122_UUID packet in
  let sessionUUID := QUuid_fromRfc4122 bytes in
  let (_, this) := valueOrAddAvatar this sessionUUID sendingNode in
  let (billboard, _) := read (bytesAvailable packet) packet in
  viaPointer sessionUUID (applyBillboard billboard) this.

(** *** Removal and the previous session id *)

Definition removeAvatar (this : AvatarHashMap) (sessionUUID : QUuid) : AvatarHashMap :=
  withAvatarHash (QHash_remove (_avatarHash this) sessionUUID) this.

Definition processKillAvatar (this : AvatarHashMap) (packet : NLPacket)
    (sendingNode : SharedNodePointer) : AvatarHashMap :=
  let (bytes, _) := read NUM_BYTES_RFC4122_UUID packet in
  let sessionUUID := QUuid_fromRfc4122 bytes in
  removeAvatar this sessionUUID.

Definition sessionUUIDChanged (this : AvatarHashMap) (sessionUUID oldUUID : QUuid)
    : AvatarHashMap :=
  mkAvatarHashMap (_avatarHash this) oldUUID.

(** ** Sequences of calls *)

(** What the node list and the owner can invoke on the object. *)
Inductive Invocation : Type :=
| BulkAvatarData (packet : NLPacket) (sendingNode : SharedNodePointer)
| AvatarIdentity (packet : NLPacket) (sendingNode : SharedNodePointer)
| AvatarBillboard (packet : NLPacket) (sendingNode : SharedNodePointer)
| KillAvatar (packet : NLPacket) (sendingNode : SharedNodePointer)
| RemoveAvatar (sessionUUID : QUuid)
| UuidChanged (sessionUUID oldUUID : QUuid).

Definition invoke (this : AvatarHashMap) (i : Invocation) : option AvatarHashMap :=
  match i with
  | BulkAvatarData packet node => processAvatarDataPacket this packet node
  | AvatarIdentity packet node => Some (processAvatarIdentityPacket this packet node)
  | AvatarBillboard packet node => Some (processAvatarBillboardPacket this packet node)
  | KillAvatar packet node => Some (processKillAvatar this packet node)
  | RemoveAvatar sessionUUID => Some (removeAvatar this sessionUUID)
  | UuidChanged sessionUUID oldUUID => Some (sessionUUIDChanged this sessionUUID oldUUID)
  end.

Fixpoint run (this : AvatarHashMap) (calls : list Invocation) : option AvatarHashMap :=
  match calls with
  | [] => Some this
  | i :: rest =>
      match invoke this i with
      | Some this' => run this' rest
      | None => None
      end
  end.

(** ** What a call does to the set of ids *)

(** The last tuple of a sequence that carries [sessionUUID], if any. *)
Fixpoint lastTupleFor (sessionUUID : QUuid) (tuples : list IdentityTuple)
    : option IdentityTuple :=
  match tuples with
  | [] => None
  | t :: rest =>
      match lastTupleFor sessionUUID rest with
      | Some t' => Some t'
      | None => if QUuid_eqb (id_sessionUUID t) sessionUUID then Some t else None
      end
  end.

(** The id a call asks to remove: the one a kill packet carries, or the
    argument of [removeAvatar]. *)
Definition removedId (i : Invocation) : option QUuid :=
  match i with
  | KillAvatar packet _ => Some (subRecordId packet)
  | RemoveAvatar sessionUUID => Some sessionUUID
  | _ => None
  end.

(** The four identity fields of a record are those of a tuple. *)
Definition holds (avatar : AvatarData) (t : IdentityTuple) : Prop :=
  getFaceModelURL avatar = id_faceMeshURL t /\
  getSkeletonModelURL avatar = id_skeletonURL t /\
  getAttachmentData avatar = id_attachmentData t /\
  getDisplayName avatar = id_displayName t.

End Registry.

(** ** Single-precision floats and [glm::distance]

    [float] is IEEE 754 binary32: 24 bits of precision, exponents up to 128,
    round to nearest even.  The operations are those of the standard
    library's specification of floats at that precision; the values are
    [spec_float]s. *)

Module Binary32.

Definition prec : Z := 24.
Definition emax : Z := 128.

Definition float : Type := spec_float.

(** The float nearest to an integer. *)
Definition of_Z (z : Z) : float := binary_normalize prec emax z 0 false.

Definition add (x y : float) : float := SFadd prec emax x y.
Definition sub (x y : float) : float := SFsub prec emax x y.
Definition mul (x y : float) : float := SFmul prec emax x y.
Definition sqrt (x : float) : float := SFsqrt prec emax x.

(** [operator<] of [float]. *)
Definition float_lt (x y : float) : bool := SFltb x y.

Definition vec3 : Type := (float * float * float)%type.

Definition vec3_zero : vec3 := (S754_zero false, S754_zero false, S754_zero false).

(** [p1 - p0], component by component. *)
Definition glm_minus (p1 p0 : vec3) : vec3 :=
  let '(x1, y1, z1) := p1 in
  let '(x0, y0, z0) := p0 in
  (sub x1 x0, sub y1 y0, sub z1 z0).

(** [glm::dot]: the products are added from the left, [x + y + z]. *)
Definition glm_dot (a b : vec3) : float :=
  let '(ax, ay, az) := a in
  let '(bx, by_, bz) := b in
  add (add (mul ax bx) (mul ay by_)) (mul az bz).

(** [glm::length(v)]: [sqrt(dot(v, v))]. *)
Definition glm_length (v : vec3) : float := sqrt (glm_dot v v).

(** Modelled from the spec: [glm::distance(p0, p1)] of the GLM library, which
    is not part of the sources: the straight-line distance, computed as GLM
    does, [length(p1 - p0)], in single precision. *)
Definition glm_distance (p0 p1 : vec3) : float := glm_length (glm_minus p1 p0).

(** *** The exact distance

    The value of a finite float is [m * 2 ^ e] for an integer [m]; sums,
    differences and products of such values are computed without rounding
    on the pairs [(m, e)]. *)
Definition exact (x : float) : option (Z * Z) :=
  match x with
  | S754_zero _ => Some (0, 0)%Z
  | S754_finite s m e => Some (if s then Zneg m else Zpos m, e)
  | S754_infinity _ | S754_nan => None
  end.

Definition scaled (x : Z * Z) (e : Z) : Z := (fst x * 2 ^ (snd x - e))%Z.

Definition exact_add (x y : Z * Z) : Z * Z :=
  let e := Z.min (snd x) (snd y) in ((scaled x e + scaled y e)%Z, e).

Definition exact_sub (x y : Z * Z) : Z * Z :=
  let e := Z.min (snd x) (snd y) in ((scaled x e - scaled y e)%Z, e).

Definition exact_mul (x y : Z * Z) : Z * Z := ((fst x * fst y)%Z, (snd x + snd y)%Z).

Definition exact_ltb (x y : Z * Z) : bool :=
  let e := Z.min (snd x) (snd y) in (scaled x e <? scaled y e)%Z.

(** The square of the straight-line distance between two points with finite
    coordinates. *)
Definition euclidean_square (a p : vec3) : option (Z * Z) :=
  let '(ax, ay, az) := a in
  let '(px, py, pz) := p in
  match exact ax, exact ay, exact az, exact px, exact py, exact pz with
  | Some ax, Some ay, Some az, Some px, Some py, Some pz =>
      let dx := exact_sub ax px in
      let dy := exact_sub ay py in
      let dz := exact_sub az pz in
      Some (exact_add (exact_add (exact_mul dx dx) (exact_mul dy dy)) (exact_mul dz dz))
  | _, _, _, _, _, _ => None
  end.

(** The words of the specification, "Euclidean distance strictly less than
    [r]", on exact values: [r] is positive and the square of the distance is
    less than the square of [r].  (A distance is less than an infinite [r];
    nothing is closer than a range that is not a number.) *)
Definition euclidean_closer (a p : vec3) (r : float) : bool :=
  match euclidean_square a p with
  | None => false
  | Some d2 =>
      match r with
      | S754_infinity false => true
      | _ =>
          match exact r with
          | Some r' => andb (exact_ltb (0, 0)%Z r') (exact_ltb d2 (exact_mul r' r'))
          | None => false
          end
      end
  end.

End Binary32.

(** ** A concrete instance

    Single-precision floats for [float], a parser that fills the position
    from the first three bytes of its buffer, and an identity stream of
    16-byte ids each followed by a one-byte length and that many bytes of
    display name.  The instance is what the closed examples below run on. *)

Module Sample.

Definition vec3 : Type := Binary32.vec3.

Definition vec3_zero : vec3 := Binary32.vec3_zero.

Definition float_lt : Binary32.float -> Binary32.float -> bool := Binary32.float_lt.

Definition glm_distance (p0 p1 : vec3) : Binary32.float := Binary32.glm_distance p0 p1.

Definition AttachmentData : Type := string.

Definition AttachmentData_eq_dec : forall a b : AttachmentData, {a = b} + {a <> b} :=
  string_dec.

Definition Avatar : Type := AvatarData vec3 AttachmentData.

Definition float_of_byte (b : byte) : Binary32.float :=
  Binary32.of_Z (Z.of_N (Byte.to_N b)).

Definition withPosition (p : vec3) (a : Avatar) : Avatar :=
  mkAvatarData (getSessionUUID a) (getOwningAvatarMixer a) p (getFaceModelURL a)
    (getSkeletonModelURL a) (getAttachmentData a) (getDisplayName a)
    (getBillboard a) (setterCalls a).

(** Three coordinate bytes; a shorter buffer is reported as read in full. *)
Definition parseDataFromBuffer (a : Avatar) (buffer : QByteArray) : Avatar * Z :=
  match buffer with
  | x :: y :: z :: _ =>
      (withPosition (float_of_byte x, float_of_byte y, float_of_byte z) a, 3%Z)
  | _ => (a, Z.of_nat (length buffer))
  end.

Fixpoint readIdentityBytes (fuel : nat) (bytes : QByteArray)
    : list (IdentityTuple AttachmentData) :=
  match fuel, bytes with
  | O, _ | _, [] => []
  | S fuel', _ =>
      let sessionUUID := QUuid_fromRfc4122 (firstn 16 bytes) in
      match skipn 16 bytes with
      | [] => [mkIdentity sessionUUID EmptyString EmptyString [] EmptyString]
      | n :: rest =>
          let len := N.to_nat (Byte.to_N n) in
          mkIdentity sessionUUID EmptyString EmptyString []
            (string_of_list_byte (firstn len rest))
          :: readIdentityBytes fuel' (skipn len rest)
      end
  end.

Definition readIdentityStream (packet : NLPacket) : list (IdentityTuple AttachmentData) :=
  let bytes := skipn (pos packet) (getPayload packet) in
  readIdentityBytes (length bytes) bytes.

Definition Registry : Type := AvatarHashMap vec3 AttachmentData.

Definition empty : Registry := AvatarHashMap_new vec3 AttachmentData.

(** The 16 bytes of the session id whose last byte is [b]. *)
Definition uuidBytes (b : byte) : QByteArray := repeat x00 15 ++ [b].

(** Session ids 1 and 2 and a few packets. *)
Definition idA : QUuid := 1%N.
Definition idB : QUuid := 2%N.

Definition billboardA : NLPacket := newPacket (uuidBytes x01 ++ [x10; x20]).

Definition killA : NLPacket := newPacket (uuidBytes x01).

(** Two sub-records, of [idA] and of [idB], three body bytes each. *)
Definition bulkAB : NLPacket :=
  newPacket (uuidBytes x01 ++ [x03; x04; x00] ++ uuidBytes x02 ++ [x05; x06; x07]).

(** The same with the second sub-record cut after one body byte. *)
Definition bulkTruncated : NLPacket :=
  newPacket (uuidBytes x01 ++ [x03; x04; x00] ++ uuidBytes x02 ++ [x05]).

(** One identity tuple of [idA] with the display name [Al]. *)
Definition identityA : NLPacket := newPacket (uuidBytes x01 ++ [x02; x41; x6c]).

Definition calls : list Invocation :=
  [ AvatarBillboard billboardA (Some 7);
    BulkAvatarData bulkAB (Some 7);
    AvatarIdentity identityA None;
    UuidChanged 9%N idB;
    BulkAvatarData bulkAB (Some 8);
    KillAvatar killA None;
    RemoveAvatar idA ].

Definition handlers : Registry -> list Invocation -> option Registry :=
  run vec3_zero AttachmentData_eq_dec parseDataFromBuffer readIdentityStream.

(** A record at (3, 4, 0), stored under [idA]. *)
Definition alice : Avatar :=
  withPosition (Binary32.of_Z 3, Binary32.of_Z 4, Binary32.of_Z 0)
    (added vec3_zero AttachmentData idA (Some 7)).

Definition withAlice : Registry := mkAvatarHashMap [(idA, alice)] QUuid_null.

(** A tuple that differs from [alice] in the display name only. *)
Definition renameAlice : IdentityTuple AttachmentData :=
  mkIdentity idA EmptyString EmptyString [] "Alice"%string.

(** A registry whose previous own id is [idA]. *)
Definition afterRename : Registry := sessionUUIDChanged empty 9%N idA.

(** The registry the calls leave. *)
Definition afterCalls : Registry :=
  Eval vm_compute in
    match handlers empty calls with Some this => this | None => empty end.

(** One turn of the bulk-data loop. *)
Definition turn : Registry -> NLPacket -> SharedNodePointer -> Registry * NLPacket :=
  processAvatarDataPacket_body vec3_zero parseDataFromBuffer.

(** Two identity tuples, of [idA] named [Al] and of [idB] named [B]. *)
Definition identityAB : NLPacket :=
  newPacket (uuidBytes x01 ++ [x02; x41; x6c] ++ uuidBytes x02 ++ [x01; x42]).

(** A packet too short to hold a session id. *)
Definition shortPacket : NLPacket := newPacket [x01; x02].

Definition killB : NLPacket := newPacket (uuidBytes x02).

(** What a bulk-data packet from node 8 makes of [withAlice], and the record
    of [idA] in it. *)
Definition aliceAfterBulk : Registry :=
  Eval vm_compute in
    match processAvatarDataPacket vec3_zero parseDataFromBuffer withAlice bulkAB (Some 8) with
    | Some this => this
    | None => empty
    end.

Definition aliceParsed : Avatar :=
  Eval vm_compute in
    match QHash_value (_avatarHash aliceAfterBulk) idA with
    | Some avatar => avatar
    | None => alice
    end.

(** A parser that reports -16 bytes, whatever it is given. *)
Definition backwardParser (a : Avatar) (buffer : QByteArray) : Avatar * Z := (a, (-16)%Z).

(** A record at (1, 2, 0), stored under [idB]: its distance from the origin
    is the square root of 5. *)
Definition bob : Avatar :=
  withPosition (Binary32.of_Z 1, Binary32.of_Z 2, Binary32.of_Z 0)
    (added vec3_zero AttachmentData idB (Some 7)).

Definition withBob : Registry := mkAvatarHashMap [(idB, bob)] QUuid_null.

(** The float 9378749 * 2 ^ -22 = 2.2360680103..., the single-precision
    square root of 5; the square root of 5 is 2.2360679774... *)
Definition sqrt5_rounded : Binary32.float := S754_finite false 9378749 (-22).

(** Modelled from the spec: sub-records of variable length that declare
    their length.  The first byte of a sub-record is the number of bytes
    that follow it; the first three of those, when present, are the
    position.  The count is the length byte and the declared bytes. *)
Definition lengthPrefixedParser (a : Avatar) (buffer : QByteArray) : Avatar * Z :=
  match buffer with
  | [] => (a, 0%Z)
  | n :: body =>
      let bytesRead := (1 + Z.of_N (Byte.to_N n))%Z in
      match body with
      | x :: y :: z :: _ =>
          (withPosition (float_of_byte x, float_of_byte y, float_of_byte z) a, bytesRead)
      | _ => (a, bytesRead)
      end
  end.

(** A sub-record of [idA] and one of [idB], each a length byte 3 and three
    position bytes: 40 bytes, the second sub-record from byte 20 on. *)
Definition echoThenPeer : NLPacket :=
  newPacket (uuidBytes x01 ++ [x03; x05; x06; x07] ++ uuidBytes x02 ++ [x03; x01; x02; x03]).

(** The 16 bytes from byte 17 of [echoThenPeer] on, read as a session id. *)
Definition misreadId : QUuid := QUuid_fromRfc4122 ([x05; x06; x07] ++ repeat x00 13).

(** An empty sub-record of [idA], then one of [idB] that declares five bytes
    and holds one. *)
Definition truncatedTrailing : NLPacket :=
  newPacket (uuidBytes x01 ++ [x00] ++ uuidBytes x02 ++ [x05; xcc]).

(** A registry whose previous own id is 7. *)
Definition withPrevious7 : Registry := sessionUUIDChanged empty 9%N 7%N.

End Sample.

(** ** Proof steps for the guarded writes *)

(** Getters applied to setters, and nothing else, reduced. *)
Ltac record_simpl :=
  cbn [getSessionUUID getOwningAvatarMixer getPosition getFaceModelURL
       getSkeletonModelURL getAttachmentData getDisplayName getBillboard setterCalls
       setFaceModelURL setSkeletonModelURL setAttachmentData setDisplayName
       setBillboard app].

(** The sixteen cases of the four comparisons of [applyIdentity]. *)
Ltac identity_cases dec t avatar :=
  unfold applyIdentity, differingFields;
  destruct (string_dec (getFaceModelURL avatar) (id_faceMeshURL t)); record_simpl;
  destruct (string_dec (getSkeletonModelURL avatar) (id_skeletonURL t)); record_simpl;
  destruct (list_eq_dec dec (getAttachmentData avatar) (id_attachmentData t));
  record_simpl;
  destruct (string_dec (getDisplayName avatar) (id_displayName t)); record_simpl.

(** * Facts *)

Unset Implicit Arguments.

(** ** The table *)

Section QHashFacts.

Variable T : Type.
Implicit Types (h : QHash T) (k key : QUuid).

Lemma QUuid_eqb_refl k : QUuid_eqb k k = true.
Proof. apply N.eqb_refl. Qed.

Lemma QUuid_eqb_neq k key : k <> key -> QUuid_eqb k key = false.
Proof. intros H. apply N.eqb_neq. exact H. Qed.

Lemma QHash_value_In h key v : QHash_value h key = Some v -> In (key, v) h.
Proof.
  induction h as [|[k w] h IH]; simpl; [discriminate|].
  destruct (N.eq_dec k key) as [->|Hne].
  - rewrite QUuid_eqb_refl. intros [= ->]. now left.
  - rewrite (QUuid_eqb_neq _ _ Hne). intros H. right. now apply IH.
Qed.

Lemma QHash_value_None h key :
  QHash_value h key = None <-> ~ In key (QHash_keys h).
Proof.
  induction h as [|[k w] h IH]; simpl.
  - split; [intros _ []|reflexivity].
  - destruct (N.eq_dec k key) as [->|Hne].
    + rewrite QUuid_eqb_refl. split; [discriminate|]. intros H. exfalso. apply H. now left.
    + rewrite (QUuid_eqb_neq _ _ Hne), IH. split.
      * intros H [Hk|Hk]; [contradiction|now apply H].
      * intros H Hk. apply H. now right.
Qed.

Lemma QHash_In_value h key v :
  NoDup (QHash_keys h) -> In (key, v) h -> QHash_value h key = Some v.
Proof.
  induction h as [|[k w] h IH]; simpl; [intros _ []|].
  intros Hnd [Heq|Hin]; inversion Hnd as [|? ? Hk Hnd']; subst.
  - inversion Heq; subst. now rewrite QUuid_eqb_refl.
  - destruct (N.eq_dec k key) as [->|Hne].
    + exfalso. apply Hk. change key with (fst (key, v)). now apply in_map.
    + rewrite (QUuid_eqb_neq _ _ Hne). now apply IH.
Qed.

Lemma QHash_keys_modify h key f : QHash_keys (QHash_modify h key f) = QHash_keys h.
Proof.
  induction h as [|[k w] h IH]; simpl; [reflexivity|].
  destruct (QUuid_eqb k key); simpl; [reflexivity|]. now f_equal.
Qed.

Lemma QHash_value_modify h key f :
  QHash_value (QHash_modify h key f) key = option_map f (QHash_value h key).
Proof.
  induction h as [|[k w] h IH]; simpl; [reflexivity|].
  destruct (QUuid_eqb k key) eqn:E; simpl; rewrite E; [reflexivity|exact IH].
Qed.

Lemma QHash_value_modify_other h key f k :
  k <> key -> QHash_value (QHash_modify h key f) k = QHash_value h k.
Proof.
  intros Hne. induction h as [|[k' w] h IH]; simpl; [reflexivity|].
  destruct (N.eq_dec k' key) as [->|Hk].
  - rewrite QUuid_eqb_refl. simpl. now rewrite QUuid_eqb_neq by congruence.
  - rewrite (QUuid_eqb_neq _ _ Hk). simpl. now rewrite IH.
Qed.

(** Writing back what is stored changes nothing. *)
Lemma QHash_modify_same h key f v :
  QHash_value h key = Some v -> f v = v -> QHash_modify h key f = h.
Proof.
  induction h as [|[k w] h IH]; simpl; [reflexivity|].
  destruct (QUuid_eqb k key).
  - intros [= ->] ->. reflexivity.
  - intros Hv Hf. f_equal. now apply IH.
Qed.

Lemma QHash_modify_absent h key f :
  QHash_value h key = None -> QHash_modify h key f = h.
Proof.
  induction h as [|[k w] h IH]; simpl; [reflexivity|].
  destruct (QUuid_eqb k key); [discriminate|].
  intros Hv. f_equal. now apply IH.
Qed.

Lemma QHash_In_modify h key f k v :
  In (k, v) (QHash_modify h key f) ->
  In (k, v) h \/ (k = key /\ exists w, In (key, w) h /\ v = f w).
Proof.
  induction h as [|[k' w] h IH]; simpl; [intros []|].
  destruct (N.eq_dec k' key) as [->|Hk].
  - rewrite QUuid_eqb_refl. simpl. intros [Heq|Hin].
    + inversion Heq; subst. right. split; [reflexivity|]. exists w. split; [now left|reflexivity].
    + left. now right.
  - rewrite (QUuid_eqb_neq _ _ Hk). simpl. intros [Heq|Hin].
    + left. now left.
    + destruct (IH Hin) as [H|[-> [w' [Hw ->]]]].
      * left. now right.
      * right. split; [reflexivity|]. exists w'. split; [now right|reflexivity].
Qed.

Lemma QHash_contains_true h key :
  QHash_contains h key = true <-> exists v, QHash_value h key = Some v.
Proof.
  unfold QHash_contains. destruct (QHash_value h key) as [v|].
  - split; [eauto|reflexivity].
  - split; [discriminate|]. intros [v Hv]. discriminate.
Qed.

Lemma QHash_value_insert h key v : QHash_value (QHash_insert h key v) key = Some v.
Proof.
  unfold QHash_insert, QHash_contains.
  destruct (QHash_value h key) as [w|] eqn:E.
  - rewrite QHash_value_modify, E. reflexivity.
  - simpl. now rewrite QUuid_eqb_refl.
Qed.

Lemma QHash_value_insert_other h key v k :
  k <> key -> QHash_value (QHash_insert h key v) k = QHash_value h k.
Proof.
  intros Hne. unfold QHash_insert. destruct (QHash_contains h key).
  - now apply QHash_value_modify_other.
  - simpl. rewrite QUuid_eqb_neq by congruence. reflexivity.
Qed.

Lemma QHash_insert_absent h key v :
  QHash_value h key = None -> QHash_insert h key v = (key, v) :: h.
Proof. intros E. unfold QHash_insert, QHash_contains. now rewrite E. Qed.

Lemma QHash_keys_insert_NoDup h key v :
  NoDup (QHash_keys h) -> NoDup (QHash_keys (QHash_insert h key v)).
Proof.
  intros Hnd. unfold QHash_insert, QHash_contains.
  destruct (QHash_value h key) eqn:E.
  - now rewrite QHash_keys_modify.
  - simpl. constructor; [|exact Hnd]. now apply QHash_value_None.
Qed.

Lemma QHash_keys_remove h key :
  QHash_keys (QHash_remove h key) = filter (fun k => negb (QUuid_eqb k key)) (QHash_keys h).
Proof.
  induction h as [|[k w] h IH]; simpl; [reflexivity|].
  destruct (QUuid_eqb k key); simpl; now rewrite IH.
Qed.

Lemma QHash_keys_remove_NoDup h key :
  NoDup (QHash_keys h) -> NoDup (QHash_keys (QHash_remove h key)).
Proof. intros H. rewrite QHash_keys_remove. now apply NoDup_filter. Qed.

Lemma QHash_remove_not_In h key : ~ In key (QHash_keys (QHash_remove h key)).
Proof.
  rewrite QHash_keys_remove, filter_In. intros [_ H].
  now rewrite QUuid_eqb_refl in H.
Qed.

Lemma QHash_value_remove h key : QHash_value (QHash_remove h key) key = None.
Proof. apply QHash_value_None, QHash_remove_not_In. Qed.

Lemma QHash_value_remove_other h key k :
  k <> key -> QHash_value (QHash_remove h key) k = QHash_value h k.
Proof.
  intros Hne. induction h as [|[k' w] h IH]; simpl; [reflexivity|].
  destruct (N.eq_dec k' key) as [->|Hk].
  - rewrite QUuid_eqb_refl. simpl. now rewrite QUuid_eqb_neq by congruence.
  - rewrite (QUuid_eqb_neq _ _ Hk). simpl. now rewrite IH.
Qed.

Lemma QHash_remove_absent h key :
  QHash_value h key = None -> QHash_remove h key = h.
Proof.
  induction h as [|[k w] h IH]; simpl; [reflexivity|].
  destruct (QUuid_eqb k key); [discriminate|]. simpl.
  intros Hv. f_equal. now apply IH.
Qed.

Lemma QHash_remove_twice h key :
  QHash_remove (QHash_remove h key) key = QHash_remove h key.
Proof. apply QHash_remove_absent, QHash_value_remove. Qed.

Lemma QHash_In_remove h key k v :
  In (k, v) (QHash_remove h key) <-> In (k, v) h /\ k <> key.
Proof.
  unfold QHash_remove. rewrite filter_In. simpl. unfold QUuid_eqb.
  destruct (N.eqb_spec k key); simpl; intuition congruence.
Qed.

Lemma QHash_In_modify_other h key f k v :
  k <> key -> (In (k, v) (QHash_modify h key f) <-> In (k, v) h).
Proof.
  intros Hne. induction h as [|[k' w] h IH]; simpl; [tauto|].
  destruct (N.eq_dec k' key) as [->|Hk].
  - rewrite QUuid_eqb_refl. simpl. split; (intros [[= ? ?]|H]; [congruence|now right]).
  - rewrite (QUuid_eqb_neq _ _ Hk). simpl. rewrite IH. tauto.
Qed.

End QHashFacts.

(** ** Session ids on the wire *)

Lemma bigEndian_length width n : length (bigEndian width n) = width.
Proof.
  revert n. induction width as [|w IH]; intros n; simpl; [reflexivity|].
  rewrite length_app, IH. simpl. lia.
Qed.

Lemma byte_of_N_small m :
  (m < 256)%N ->
  Byte.to_N (match Byte.of_N m with Some b => b | None => x00 end) = m.
Proof.
  intros Hm. destruct (Byte.of_N m) as [b|] eqn:E.
  - now apply Byte.to_of_N.
  - apply Byte.of_N_None_iff in E. lia.
Qed.

Lemma fromBigEndian width n :
  fold_left (fun acc b => (acc * 256 + Byte.to_N b)%N) (bigEndian width n) 0%N
  = (n mod 256 ^ N.of_nat width)%N.
Proof.
  revert n. induction width as [|w IH]; intros n.
  - simpl. now rewrite N.mod_1_r.
  - cbn [bigEndian]. rewrite fold_left_app. cbn [fold_left]. rewrite IH.
    rewrite byte_of_N_small by (apply N.mod_lt; lia).
    rewrite Nat2N.inj_succ, N.pow_succ_r'.
    rewrite N.Div0.mod_mul_r. lia.
Qed.

Lemma QUuid_fromRfc4122_toRfc4122 id :
  (id < 2 ^ 128)%N -> QUuid_fromRfc4122 (QUuid_toRfc4122 id) = id.
Proof.
  intros Hid. unfold QUuid_fromRfc4122, QUuid_toRfc4122.
  rewrite bigEndian_length. cbn [Nat.eqb].
  rewrite fromBigEndian. apply N.mod_small. exact Hid.
Qed.

(** ** The cursor *)

Lemma read_length n p : length (fst (read n p)) = Nat.min n (bytesAvailable p).
Proof.
  unfold read, bytesAvailable. simpl. rewrite length_firstn, length_skipn. reflexivity.
Qed.

Lemma read_pos n p : pos (snd (read n p)) = pos p + Nat.min n (bytesAvailable p).
Proof.
  unfold read, bytesAvailable. simpl. rewrite length_firstn, length_skipn. reflexivity.
Qed.

Lemma read_payload n p : getPayload (snd (read n p)) = getPayload p.
Proof. reflexivity. Qed.

Lemma read_bytesAvailable n p :
  bytesAvailable (snd (read n p)) = bytesAvailable p - Nat.min n (bytesAvailable p).
Proof.
  unfold bytesAvailable at 1. rewrite read_pos, read_payload.
  unfold bytesAvailable. lia.
Qed.

Lemma read_all p : fst (read (bytesAvailable p) p) = skipn (pos p) (getPayload p).
Proof.
  unfold read, bytesAvailable. simpl. apply firstn_all2. rewrite length_skipn. lia.
Qed.

Lemma seek_payload z p : getPayload (seek z p) = getPayload p.
Proof. unfold seek. now destruct (z <? 0)%Z. Qed.

(** A seek to the cursor plus a count that is not negative lands there. *)
Lemma seek_forward p (n : Z) :
  (0 <= n)%Z -> pos (seek (Z.of_nat (pos p) + n) p) = pos p + Z.to_nat n.
Proof.
  intros Hn. unfold seek.
  destruct (Z.ltb_spec (Z.of_nat (pos p) + n) 0); [lia|]. simpl. lia.
Qed.

(** A seek by at least what is available leaves nothing available. *)
Lemma seek_past_end p (n : Z) :
  (Z.of_nat (bytesAvailable p) <= n)%Z ->
  bytesAvailable (seek (Z.of_nat (pos p) + n) p) = 0.
Proof.
  intros Hn. unfold seek, bytesAvailable in *.
  destruct (Z.ltb_spec (Z.of_nat (pos p) + n) 0); [lia|]. simpl. lia.
Qed.

(** ** The registry *)

Section RegistryFacts.

Variable vec3 : Type.
Variable vec3_zero : vec3.
Variable float : Type.
Variable float_lt : float -> float -> bool.
Variable glm_distance : vec3 -> vec3 -> float.
Variable AttachmentData : Type.
Variable AttachmentData_eq_dec : forall a b : AttachmentData, {a = b} + {a <> b}.
Variable parseDataFromBuffer :
  AvatarData vec3 AttachmentData -> QByteArray -> AvatarData vec3 AttachmentData * Z.
Variable readIdentityStream : NLPacket -> list (IdentityTuple AttachmentData).

Local Abbreviation Avatar := (AvatarData vec3 AttachmentData).
Local Abbreviation Registry := (AvatarHashMap vec3 AttachmentData).
Local Abbreviation fresh := (AvatarData_new vec3_zero AttachmentData).
Local Abbreviation findOrAdd := (valueOrAddAvatar vec3_zero).
Local Abbreviation dataBody := (processAvatarDataPacket_body vec3_zero parseDataFromBuffer).
Local Abbreviation dataLoop := (processAvatarDataPacket_loop vec3_zero parseDataFromBuffer).
Local Abbreviation dataTurns := (processAvatarDataPacket_turns vec3_zero parseDataFromBuffer).
Local Abbreviation dataPacket := (processAvatarDataPacket vec3_zero parseDataFromBuffer).
Local Abbreviation bytesRead := (bytesReadOf vec3_zero parseDataFromBuffer).
Local Abbreviation identityBody := (processAvatarIdentityPacket_body vec3_zero AttachmentData_eq_dec).
Local Abbreviation identityPacket :=
  (processAvatarIdentityPacket vec3_zero AttachmentData_eq_dec readIdentityStream).
Local Abbreviation billboardPacket := (processAvatarBillboardPacket vec3_zero).
Local Abbreviation invokeOn :=
  (invoke vec3_zero AttachmentData_eq_dec parseDataFromBuffer readIdentityStream).
Local Abbreviation runOn :=
  (run vec3_zero AttachmentData_eq_dec parseDataFromBuffer readIdentityStream).
Local Abbreviation table this := (_avatarHash this).
Local Abbreviation tracker this := (_lastOwnerSessionUUID this).
Local Abbreviation added := (added vec3_zero AttachmentData).

Implicit Types (this : Registry) (packet : NLPacket) (node : SharedNodePointer)
  (avatar : Avatar) (id k : QUuid).

Lemma withAvatarHash_same this : withAvatarHash (table this) this = this.
Proof. now destruct this. Qed.

(** *** The creation path *)

Lemma valueOrAddAvatar_found this id node avatar :
  QHash_value (table this) id = Some avatar -> findOrAdd this id node = (avatar, this).
Proof. intros H. unfold valueOrAddAvatar. now rewrite H. Qed.

Lemma valueOrAddAvatar_absent this id node :
  QHash_value (table this) id = None ->
  findOrAdd this id node
  = (added id node, withAvatarHash ((id, added id node) :: table this) this).
Proof.
  intros H. unfold valueOrAddAvatar. rewrite H. unfold addAvatar.
  now rewrite QHash_insert_absent.
Qed.

Lemma valueOrAddAvatar_tracker this id node :
  tracker (snd (findOrAdd this id node)) = tracker this.
Proof.
  unfold valueOrAddAvatar. now destruct (QHash_value (table this) id).
Qed.

Lemma valueOrAddAvatar_value this id node :
  QHash_value (table (snd (findOrAdd this id node))) id
  = Some (fst (findOrAdd this id node)).
Proof.
  destruct (QHash_value (table this) id) as [a|] eqn:E.
  - now rewrite valueOrAddAvatar_found with (avatar := a) by exact E.
  - rewrite valueOrAddAvatar_absent by exact E. simpl. now rewrite QUuid_eqb_refl.
Qed.

Lemma valueOrAddAvatar_value_other this id node k :
  k <> id -> QHash_value (table (snd (findOrAdd this id node))) k = QHash_value (table this) k.
Proof.
  intros Hne. destruct (QHash_value (table this) id) as [a|] eqn:E.
  - now rewrite valueOrAddAvatar_found with (avatar := a) by exact E.
  - rewrite valueOrAddAvatar_absent by exact E. simpl.
    rewrite QUuid_eqb_neq by congruence. reflexivity.
Qed.

Lemma valueOrAddAvatar_NoDup this id node :
  NoDup (QHash_keys (table this)) ->
  NoDup (QHash_keys (table (snd (findOrAdd this id node)))).
Proof.
  intros Hnd. destruct (QHash_value (table this) id) as [a|] eqn:E.
  - now rewrite valueOrAddAvatar_found with (avatar := a) by exact E.
  - rewrite valueOrAddAvatar_absent by exact E. simpl.
    constructor; [now apply QHash_value_None|exact Hnd].
Qed.

(** *** A call through the pointer *)

Lemma viaPointer_tracker id (f : Avatar -> Avatar) this :
  tracker (viaPointer id f this) = tracker this.
Proof. reflexivity. Qed.

Lemma viaPointer_value id (f : Avatar -> Avatar) this :
  QHash_value (table (viaPointer id f this)) id = option_map f (QHash_value (table this) id).
Proof. apply QHash_value_modify. Qed.

Lemma viaPointer_value_other id (f : Avatar -> Avatar) this k :
  k <> id -> QHash_value (table (viaPointer id f this)) k = QHash_value (table this) k.
Proof. apply QHash_value_modify_other. Qed.

Lemma viaPointer_keys id (f : Avatar -> Avatar) this :
  QHash_keys (table (viaPointer id f this)) = QHash_keys (table this).
Proof. apply QHash_keys_modify. Qed.

Lemma viaPointer_same id (f : Avatar -> Avatar) this avatar :
  QHash_value (table this) id = Some avatar -> f avatar = avatar ->
  viaPointer id f this = this.
Proof.
  intros Hv Hf. unfold viaPointer.
  rewrite QHash_modify_same with (v := avatar) by assumption. apply withAvatarHash_same.
Qed.

(** *** One turn of the bulk-data loop *)

Lemma processAvatarDataPacket_body_eq this packet node :
  dataBody this packet node =
  let id := subRecordId packet in
  let cursor :=
    seek (Z.of_nat (pos (afterId packet)) + bytesRead this packet node) (afterId packet) in
  if negb (QUuid_eqb id (tracker this)) then
    (viaPointer id
       (fun _ => fst (parseDataFromBuffer (fst (findOrAdd this id node))
                        (parseBuffer (afterId packet))))
       (snd (findOrAdd this id node)),
     cursor)
  else (this, cursor).
Proof.
  unfold processAvatarDataPacket_body, bytesReadOf, subRecordId, afterId.
  cbv zeta. simpl.
  destruct (negb _).
  - destruct (findOrAdd _ _ _) as [a t]. simpl.
    now destruct (parseDataFromBuffer _ _).
  - now destruct (parseDataFromBuffer _ _).
Qed.

Lemma processAvatarDataPacket_body_cursor this packet node :
  snd (dataBody this packet node)
  = seek (Z.of_nat (pos (afterId packet)) + bytesRead this packet node) (afterId packet).
Proof.
  rewrite processAvatarDataPacket_body_eq. cbv zeta. now destruct (negb _).
Qed.

Lemma processAvatarDataPacket_body_tracker this packet node :
  tracker (fst (dataBody this packet node)) = tracker this.
Proof.
  rewrite processAvatarDataPacket_body_eq. cbv zeta. destruct (negb _); simpl.
  - apply valueOrAddAvatar_tracker.
  - reflexivity.
Qed.

Lemma processAvatarDataPacket_body_value_other this packet node k :
  k <> subRecordId packet ->
  QHash_value (table (fst (dataBody this packet node))) k = QHash_value (table this) k.
Proof.
  intros Hne. rewrite processAvatarDataPacket_body_eq. cbv zeta.
  destruct (negb _); simpl; [|reflexivity].
  rewrite QHash_value_modify_other by exact Hne.
  now apply valueOrAddAvatar_value_other.
Qed.

Lemma processAvatarDataPacket_body_NoDup this packet node :
  NoDup (QHash_keys (table this)) ->
  NoDup (QHash_keys (table (fst (dataBody this packet node)))).
Proof.
  intros Hnd. rewrite processAvatarDataPacket_body_eq. cbv zeta.
  destruct (negb _); simpl; [|exact Hnd].
  rewrite QHash_keys_modify. now apply valueOrAddAvatar_NoDup.
Qed.

Lemma processAvatarDataPacket_turns_S n this packet node :
  dataTurns (S n) this packet node
  = dataTurns n (fst (dataBody this packet node)) (snd (dataBody this packet node)) node.
Proof. simpl. now destruct (dataBody this packet node). Qed.

Lemma processAvatarDataPacket_loop_S fuel this packet node :
  bytesAvailable packet <> 0 ->
  dataLoop (S fuel) this packet node
  = dataLoop fuel (fst (dataBody this packet node)) (snd (dataBody this packet node)) node.
Proof.
  intros Hav. simpl. apply Nat.eqb_neq in Hav. rewrite Hav.
  now destruct (dataBody this packet node).
Qed.

Lemma processAvatarDataPacket_loop_done fuel this packet node :
  bytesAvailable packet = 0 -> dataLoop fuel this packet node = Some (this, packet).
Proof. intros Hav. destruct fuel; simpl; now rewrite Hav. Qed.

(** What holds of the table before a loop and is kept by every turn holds
    of the table the loop returns. *)
Lemma processAvatarDataPacket_loop_ind (P : Registry -> Prop) node :
  (forall this packet, P this -> P (fst (dataBody this packet node))) ->
  forall fuel this packet this' packet',
    P this -> dataLoop fuel this packet node = Some (this', packet') -> P this'.
Proof.
  intros Hstep. induction fuel as [|fuel IH]; intros this packet this' packet' HP.
  - simpl. destruct (bytesAvailable packet =? 0); [|discriminate].
    now intros [= <- <-].
  - destruct (Nat.eq_dec (bytesAvailable packet) 0) as [E|E].
    + rewrite processAvatarDataPacket_loop_done by exact E. now intros [= <- <-].
    + rewrite processAvatarDataPacket_loop_S by exact E. apply IH. now apply Hstep.
Qed.

Lemma processAvatarDataPacket_ind (P : Registry -> Prop) node :
  (forall this packet, P this -> P (fst (dataBody this packet node))) ->
  forall this packet this', P this -> dataPacket this packet node = Some this' -> P this'.
Proof.
  intros Hstep this packet this' HP. unfold processAvatarDataPacket.
  destruct (dataLoop _ _ _ _) as [[t p]|] eqn:E; [|discriminate].
  simpl. intros [= <-]. eapply processAvatarDataPacket_loop_ind; eassumption.
Qed.

Lemma processAvatarDataPacket_turns_ind (P : Registry -> Prop) node :
  (forall this packet, P this -> P (fst (dataBody this packet node))) ->
  forall n this packet, P this -> P (fst (dataTurns n this packet node)).
Proof.
  intros Hstep. induction n as [|n IH]; intros this packet HP; [exact HP|].
  rewrite processAvatarDataPacket_turns_S. apply IH. now apply Hstep.
Qed.

(** *** Identity, billboard and kill *)

Lemma processAvatarIdentityPacket_body_eq node this (t : IdentityTuple AttachmentData) :
  identityBody node this t
  = viaPointer (id_sessionUUID t) (applyIdentity AttachmentData_eq_dec t)
      (snd (findOrAdd this (id_sessionUUID t) node)).
Proof.
  unfold processAvatarIdentityPacket_body. now destruct (findOrAdd _ _ _).
Qed.

Lemma processAvatarBillboardPacket_eq this packet node :
  billboardPacket this packet node
  = viaPointer (subRecordId packet)
      (applyBillboard (fst (read (bytesAvailable (afterId packet)) (afterId packet))))
      (snd (findOrAdd this (subRecordId packet) node)).
Proof.
  unfold processAvatarBillboardPacket, subRecordId, afterId. simpl.
  now destruct (findOrAdd _ _ _).
Qed.

Lemma processKillAvatar_eq this packet node :
  processKillAvatar this packet node = removeAvatar this (subRecordId packet).
Proof. reflexivity. Qed.

Lemma processAvatarIdentityPacket_body_NoDup node this (t : IdentityTuple AttachmentData) :
  NoDup (QHash_keys (table this)) -> NoDup (QHash_keys (table (identityBody node this t))).
Proof.
  intros Hnd. rewrite processAvatarIdentityPacket_body_eq, viaPointer_keys.
  now apply valueOrAddAvatar_NoDup.
Qed.

Lemma processAvatarBillboardPacket_NoDup this packet node :
  NoDup (QHash_keys (table this)) ->
  NoDup (QHash_keys (table (billboardPacket this packet node))).
Proof.
  intros Hnd. rewrite processAvatarBillboardPacket_eq, viaPointer_keys.
  now apply valueOrAddAvatar_NoDup.
Qed.

Lemma removeAvatar_NoDup this id :
  NoDup (QHash_keys (table this)) -> NoDup (QHash_keys (table (removeAvatar this id))).
Proof. apply QHash_keys_remove_NoDup. Qed.

(** *** Sequences of calls *)

Section Preserved.

Variable P : Registry -> Prop.
Hypothesis P_data : forall this packet node, P this -> P (fst (dataBody this packet node)).
Hypothesis P_identity :
  forall this node (t : IdentityTuple AttachmentData), P this -> P (identityBody node this t).
Hypothesis P_billboard : forall this packet node, P this -> P (billboardPacket this packet node).
Hypothesis P_remove : forall this id, P this -> P (removeAvatar this id).
Hypothesis P_changed : forall this id k, P this -> P (sessionUUIDChanged this id k).

Lemma identity_tuples_preserve node (tuples : list (IdentityTuple AttachmentData)) this :
  P this -> P (fold_left (identityBody node) tuples this).
Proof.
  revert this. induction tuples as [|t tuples IH]; intros this HP; simpl; [exact HP|].
  apply IH. now apply P_identity.
Qed.

Lemma invoke_preserves this i this' : P this -> invokeOn this i = Some this' -> P this'.
Proof.
  intros HP. destruct i as [packet node|packet node|packet node|packet node|id|id k]; simpl.
  - apply processAvatarDataPacket_ind; [|exact HP]. intros; now apply P_data.
  - intros [= <-]. now apply identity_tuples_preserve.
  - intros [= <-]. now apply P_billboard.
  - intros [= <-]. rewrite processKillAvatar_eq. now apply P_remove.
  - intros [= <-]. now apply P_remove.
  - intros [= <-]. now apply P_changed.
Qed.

Lemma run_preserves calls : forall this this', P this -> runOn this calls = Some this' -> P this'.
Proof.
  induction calls as [|i calls IH]; intros this this' HP; simpl.
  - now intros [= <-].
  - destruct (invokeOn this i) as [this1|] eqn:E; [|discriminate].
    apply IH. eapply invoke_preserves; eassumption.
Qed.

End Preserved.

Lemma run_NoDup calls this this' :
  NoDup (QHash_keys (table this)) -> runOn this calls = Some this' ->
  NoDup (QHash_keys (table this')).
Proof.
  apply (run_preserves (fun this => NoDup (QHash_keys (table this)))).
  - intros; now apply processAvatarDataPacket_body_NoDup.
  - intros; now apply processAvatarIdentityPacket_body_NoDup.
  - intros; now apply processAvatarBillboardPacket_NoDup.
  - intros; now apply removeAvatar_NoDup.
  - intros; assumption.
Qed.

(** C1.  After any sequence of handler calls on a new registry the table
    holds at most one record per session id, and so it does after every
    turn of a bulk-data or identity loop run from there; the creation path
    called for an id that has a record returns that record and leaves the
    registry as it is. *)
Theorem registry_one_record_per_session calls this :
  runOn (AvatarHashMap_new vec3 AttachmentData) calls = Some this ->
  NoDup (QHash_keys (table this)) /\
  (forall packet node n,
      NoDup (QHash_keys (table (fst (dataTurns n this packet node))))) /\
  (forall node (tuples : list (IdentityTuple AttachmentData)),
      NoDup (QHash_keys (table (fold_left (identityBody node) tuples this)))) /\
  (forall id node avatar,
      QHash_value (table this) id = Some avatar ->
      findOrAdd this id node = (avatar, this)).
Proof.
  intros Hrun.
  assert (Hnd : NoDup (QHash_keys (table this))).
  { eapply run_NoDup; [|exact Hrun]. constructor. }
  split; [exact Hnd|]. split; [|split].
  - intros packet node n.
    apply (processAvatarDataPacket_turns_ind (fun this => NoDup (QHash_keys (table this))));
      [|exact Hnd].
    intros; now apply processAvatarDataPacket_body_NoDup.
  - intros node tuples. revert this Hrun Hnd.
    induction tuples as [|t tuples IH] using rev_ind; intros this Hrun Hnd; [exact Hnd|].
    rewrite fold_left_app. simpl.
    apply processAvatarIdentityPacket_body_NoDup. now apply IH.
  - intros id node avatar Hv. now apply valueOrAddAvatar_found.
Qed.

(** *** Properties of the stored records *)

Lemma applyIdentity_sessionUUID (t : IdentityTuple AttachmentData) avatar :
  getSessionUUID (applyIdentity AttachmentData_eq_dec t avatar) = getSessionUUID avatar.
Proof.
  unfold applyIdentity.
  destruct (string_dec (getFaceModelURL avatar) _); simpl;
    destruct (string_dec _ (id_skeletonURL t)); simpl;
    destruct (list_eq_dec _ _ (id_attachmentData t)); simpl;
    destruct (string_dec _ (id_displayName t)); reflexivity.
Qed.

Lemma applyBillboard_sessionUUID (billboard : QByteArray) avatar :
  getSessionUUID (applyBillboard billboard avatar) = getSessionUUID avatar.
Proof. unfold applyBillboard. now destruct (QByteArray_eq_dec _ _). Qed.

Section RecordInvariant.

(** A property of a record and the key it is stored under that the new
    record has and that the parser and the guarded writes keep. *)
Variable Q : QUuid -> Avatar -> Prop.
Hypothesis Q_added : forall id node, Q id (added id node).
Hypothesis Q_parse :
  forall id avatar buffer, Q id avatar -> Q id (fst (parseDataFromBuffer avatar buffer)).
Hypothesis Q_identity :
  forall id (t : IdentityTuple AttachmentData) avatar,
    Q id avatar -> Q id (applyIdentity AttachmentData_eq_dec t avatar).
Hypothesis Q_billboard :
  forall id billboard avatar, Q id avatar -> Q id (applyBillboard billboard avatar).

Local Abbreviation all_Q this := (forall k avatar, In (k, avatar) (table this) -> Q k avatar).

Lemma valueOrAddAvatar_records this id node :
  all_Q this -> all_Q (snd (findOrAdd this id node)).
Proof.
  intros HQ k a. destruct (QHash_value (table this) id) as [a0|] eqn:E.
  - rewrite valueOrAddAvatar_found with (avatar := a0) by exact E. apply HQ.
  - rewrite valueOrAddAvatar_absent by exact E. simpl.
    intros [[= <- <-]|Hin]; [apply Q_added|now apply HQ].
Qed.

Lemma viaPointer_records this id (f : Avatar -> Avatar) :
  (forall w, In (id, w) (table this) -> Q id w -> Q id (f w)) ->
  all_Q this -> all_Q (viaPointer id f this).
Proof.
  intros Hf HQ k a Hin. simpl in Hin.
  destruct (QHash_In_modify _ _ _ _ _ _ Hin) as [H|[-> [w [Hw ->]]]].
  - now apply HQ.
  - apply Hf; [exact Hw|now apply HQ].
Qed.

Lemma run_records calls this :
  runOn (AvatarHashMap_new vec3 AttachmentData) calls = Some this -> all_Q this.
Proof.
  apply (run_preserves (fun this => all_Q this)).
  - intros t packet node HQ. rewrite processAvatarDataPacket_body_eq. cbv zeta.
    destruct (negb _); [|exact HQ]. cbn [fst].
    apply viaPointer_records; [|now apply valueOrAddAvatar_records].
    intros w _ _. apply Q_parse.
    apply (valueOrAddAvatar_records t (subRecordId packet) node HQ).
    apply QHash_value_In, valueOrAddAvatar_value.
  - intros t node tu HQ. rewrite processAvatarIdentityPacket_body_eq.
    apply viaPointer_records; [|now apply valueOrAddAvatar_records].
    intros w _. apply Q_identity.
  - intros t packet node HQ. rewrite processAvatarBillboardPacket_eq.
    apply viaPointer_records; [|now apply valueOrAddAvatar_records].
    intros w _. apply Q_billboard.
  - intros t id HQ k a Hin. simpl in Hin. apply QHash_In_remove in Hin. now apply HQ.
  - intros t id k HQ. exact HQ.
  - intros k a [].
Qed.

End RecordInvariant.

Lemma run_app calls1 : forall calls2 this,
  runOn this (calls1 ++ calls2)
  = match runOn this calls1 with Some this' => runOn this' calls2 | None => None end.
Proof.
  induction calls1 as [|i calls1 IH]; intros calls2 this; simpl; [reflexivity|].
  destruct (invokeOn this i); [apply IH|reflexivity].
Qed.

Lemma applyIdentity_sessionUUID_calls (t : IdentityTuple AttachmentData) avatar :
  count_occ AvatarField_eq_dec (setterCalls (applyIdentity AttachmentData_eq_dec t avatar))
    FSessionUUID
  = count_occ AvatarField_eq_dec (setterCalls avatar) FSessionUUID.
Proof.
  unfold applyIdentity.
  destruct (string_dec (getFaceModelURL avatar) _); simpl;
    destruct (string_dec _ (id_skeletonURL t)); simpl;
    destruct (list_eq_dec _ _ (id_attachmentData t)); simpl;
    destruct (string_dec _ (id_displayName t)); reflexivity.
Qed.

Lemma applyBillboard_sessionUUID_calls (billboard : QByteArray) avatar :
  count_occ AvatarField_eq_dec (setterCalls (applyBillboard billboard avatar)) FSessionUUID
  = count_occ AvatarField_eq_dec (setterCalls avatar) FSessionUUID.
Proof. unfold applyBillboard. now destruct (QByteArray_eq_dec _ _). Qed.

(** C10.  Provided the parser leaves the session id of the object it is
    called on alone: after any sequence of handler calls on a new registry
    every stored record carries the id it is stored under; a further call
    does not change the id of a record that is stored before and after it;
    and, when the parser does not call the id's setter either, that setter
    has been called exactly once on every stored record (by [addAvatar]). *)
Theorem stored_sessionUUID_is_key :
  (forall avatar buffer,
      getSessionUUID (fst (parseDataFromBuffer avatar buffer)) = getSessionUUID avatar) ->
  forall calls this,
    runOn (AvatarHashMap_new vec3 AttachmentData) calls = Some this ->
    (forall k avatar, In (k, avatar) (table this) -> getSessionUUID avatar = k) /\
    (forall i this' k avatar avatar',
        invokeOn this i = Some this' ->
        QHash_value (table this) k = Some avatar ->
        QHash_value (table this') k = Some avatar' ->
        getSessionUUID avatar' = getSessionUUID avatar) /\
    ((forall avatar buffer,
         count_occ AvatarField_eq_dec
           (setterCalls (fst (parseDataFromBuffer avatar buffer))) FSessionUUID
         = count_occ AvatarField_eq_dec (setterCalls avatar) FSessionUUID) ->
     forall k avatar,
       In (k, avatar) (table this) ->
       count_occ AvatarField_eq_dec (setterCalls avatar) FSessionUUID = 1).
Proof.
  intros Hparse.
  assert (Hkey : forall calls this,
             runOn (AvatarHashMap_new vec3 AttachmentData) calls = Some this ->
             forall k avatar, In (k, avatar) (table this) -> getSessionUUID avatar = k).
  { intros calls this. apply (run_records (fun k avatar => getSessionUUID avatar = k)).
    - reflexivity.
    - intros id avatar buffer <-. apply Hparse.
    - intros id t avatar <-. apply applyIdentity_sessionUUID.
    - intros id b avatar <-. apply applyBillboard_sessionUUID. }
  intros calls this Hrun. split; [now apply (Hkey calls)|]. split.
  - intros i this' k avatar avatar' Hinv Hv Hv'.
    assert (Hrun' : runOn (AvatarHashMap_new vec3 AttachmentData) (calls ++ [i]) = Some this').
    { rewrite run_app, Hrun. simpl. now rewrite Hinv. }
    rewrite (Hkey _ _ Hrun _ _ (QHash_value_In _ _ _ _ Hv)).
    now rewrite (Hkey _ _ Hrun' _ _ (QHash_value_In _ _ _ _ Hv')).
  - intros Hcalls. revert Hrun.
    apply (run_records
             (fun _ avatar => count_occ AvatarField_eq_dec (setterCalls avatar) FSessionUUID = 1)).
    + reflexivity.
    + intros id avatar buffer <-. apply Hcalls.
    + intros id t avatar <-. apply applyIdentity_sessionUUID_calls.
    + intros id b avatar <-. apply applyBillboard_sessionUUID_calls.
Qed.

(** *** The bulk-data loop returns *)

Lemma afterId_bytesAvailable packet :
  bytesAvailable packet <> 0 -> bytesAvailable (afterId packet) < bytesAvailable packet.
Proof.
  intros Hav. unfold afterId. rewrite read_bytesAvailable.
  unfold NUM_BYTES_RFC4122_UUID. lia.
Qed.

Lemma seek_forward_bytesAvailable packet (n : Z) :
  (0 <= n)%Z ->
  bytesAvailable (seek (Z.of_nat (pos packet) + n) packet) <= bytesAvailable packet.
Proof.
  intros Hn. unfold bytesAvailable. rewrite seek_payload, seek_forward by exact Hn. lia.
Qed.

Lemma processAvatarDataPacket_body_progress this packet node :
  bytesAvailable packet <> 0 ->
  (0 <= bytesRead this packet node)%Z ->
  bytesAvailable (snd (dataBody this packet node)) < bytesAvailable packet.
Proof.
  intros Hav Hn. rewrite processAvatarDataPacket_body_cursor.
  pose proof (afterId_bytesAvailable packet Hav).
  pose proof (seek_forward_bytesAvailable (afterId packet) _ Hn). lia.
Qed.

Section ParserCounts.

Hypothesis parse_count_nonneg :
  forall avatar buffer, (0 <= snd (parseDataFromBuffer avatar buffer))%Z.

Lemma bytesReadOf_nonneg this packet node : (0 <= bytesRead this packet node)%Z.
Proof. unfold bytesReadOf. destruct (negb _); apply parse_count_nonneg. Qed.

Lemma processAvatarDataPacket_loop_returns node fuel : forall this packet,
  bytesAvailable packet <= fuel ->
  exists this' packet',
    dataLoop fuel this packet node = Some (this', packet') /\ bytesAvailable packet' = 0.
Proof.
  induction fuel as [|fuel IH]; intros this packet Hle.
  - exists this, packet. split; [|lia]. apply processAvatarDataPacket_loop_done. lia.
  - destruct (Nat.eq_dec (bytesAvailable packet) 0) as [E|E].
    + exists this, packet. split; [|exact E]. now apply processAvatarDataPacket_loop_done.
    + rewrite processAvatarDataPacket_loop_S by exact E. apply IH.
      pose proof (processAvatarDataPacket_body_progress this packet node E
                    (bytesReadOf_nonneg this packet node)).
      lia.
Qed.

(** X2.  With a parser whose counts are never negative every turn of the
    bulk-data loop leaves fewer bytes available, so the handler returns: one
    turn per byte available at the start is enough. *)
Theorem processAvatarDataPacket_returns this packet node :
  exists this',
    processAvatarDataPacket vec3_zero parseDataFromBuffer this packet node = Some this'.
Proof.
  destruct (processAvatarDataPacket_loop_returns node (bytesAvailable packet) this packet
              (le_n _)) as [this' [packet' [H _]]].
  exists this'. unfold processAvatarDataPacket. now rewrite H.
Qed.

Lemma processAvatarDataPacket_turns_available node n : forall this packet,
  (forall j, j < n -> bytesAvailable (snd (dataTurns j this packet node)) <> 0) ->
  bytesAvailable (snd (dataTurns n this packet node)) + n <= bytesAvailable packet.
Proof.
  induction n as [|n IH]; intros this packet Hav; [simpl; lia|].
  rewrite processAvatarDataPacket_turns_S.
  assert (E : bytesAvailable packet <> 0) by (apply (Hav 0); lia).
  pose proof (processAvatarDataPacket_body_progress this packet node E
                (bytesReadOf_nonneg this packet node)).
  specialize (IH (fst (dataBody this packet node)) (snd (dataBody this packet node))).
  assert (forall j, j < n ->
            bytesAvailable
              (snd (dataTurns j (fst (dataBody this packet node))
                      (snd (dataBody this packet node)) node)) <> 0).
  { intros j Hj. rewrite <- processAvatarDataPacket_turns_S. apply Hav. lia. }
  specialize (IH H0). lia.
Qed.

End ParserCounts.

Lemma processAvatarDataPacket_loop_turns node n : forall fuel this packet,
  (forall j, j < n -> bytesAvailable (snd (dataTurns j this packet node)) <> 0) ->
  dataLoop (n + fuel) this packet node
  = dataLoop fuel (fst (dataTurns n this packet node)) (snd (dataTurns n this packet node)) node.
Proof.
  induction n as [|n IH]; intros fuel this packet Hav; [reflexivity|].
  assert (E : bytesAvailable packet <> 0) by (apply (Hav 0); lia).
  cbn [Nat.add]. rewrite processAvatarDataPacket_loop_S by exact E.
  rewrite processAvatarDataPacket_turns_S. apply IH.
  intros j Hj. rewrite <- processAvatarDataPacket_turns_S. apply Hav. lia.
Qed.

(** A sub-record whose id is the stored previous own id leaves the registry
    as it is; the cursor moves past the id and by the count the parser
    reports on the buffer it is handed, the loop goes on from there, and a
    sub-record for another id found there is parsed into that id's record.
    The cursor is where the same sub-record leaves it when it is not
    discarded and the parser reports the same count. *)
Lemma discarded_turn_cursor this packet node :
  bytesAvailable packet <> 0 ->
  subRecordId packet = tracker this ->
  let n := snd (parseDataFromBuffer fresh (parseBuffer (afterId packet))) in
  let cursor := seek (Z.of_nat (pos (afterId packet)) + n) (afterId packet) in
  dataBody this packet node = (this, cursor) /\
  (NUM_BYTES_RFC4122_UUID <= bytesAvailable packet -> (0 <= n)%Z ->
   pos cursor = pos packet + NUM_BYTES_RFC4122_UUID + Z.to_nat n) /\
  (forall fuel, dataLoop (S fuel) this packet node = dataLoop fuel this cursor node) /\
  (forall id,
      subRecordId cursor = id -> id <> tracker this ->
      QHash_value (table (fst (dataBody this cursor node))) id
      = Some (fst (parseDataFromBuffer (fst (findOrAdd this id node))
                     (parseBuffer (afterId cursor))))) /\
  (forall other,
      tracker other <> subRecordId packet ->
      snd (parseDataFromBuffer (fst (findOrAdd other (subRecordId packet) node))
             (parseBuffer (afterId packet))) = n ->
      snd (dataBody other packet node) = cursor).
Proof.
  intros Hav Hid n cursor.
  assert (Hbody : dataBody this packet node = (this, cursor)).
  { rewrite processAvatarDataPacket_body_eq. cbv zeta. unfold bytesReadOf.
    rewrite Hid, QUuid_eqb_refl. reflexivity. }
  split; [exact Hbody|]. split; [|split; [|split]].
  - intros H16 Hn. unfold cursor. rewrite seek_forward by exact Hn.
    unfold afterId. rewrite read_pos. lia.
  - intros fuel. rewrite processAvatarDataPacket_loop_S by exact Hav.
    now rewrite Hbody.
  - intros id Hc Hne. rewrite processAvatarDataPacket_body_eq. cbv zeta.
    rewrite Hc, QUuid_eqb_neq by exact Hne. cbn [negb fst].
    rewrite viaPointer_value, valueOrAddAvatar_value. reflexivity.
  - intros other Hne Hcount. rewrite processAvatarDataPacket_body_cursor.
    unfold bytesReadOf. rewrite QUuid_eqb_neq by congruence. cbn [negb].
    now rewrite Hcount.
Qed.

(** When, after [n] earlier sub-records, the count the parser reports on the
    buffer it is handed is more than the bytes left behind the id, the loop
    ends with that turn and returns; every record stored under another id is
    as the earlier sub-records left it, and the record under the sub-record's
    own id is what the parser made of the stored (or new) one, or untouched
    when the id is the previous own id. *)
Lemma count_past_end_ends_loop this0 packet0 node n :
  let this := fst (dataTurns n this0 packet0 node) in
  let packet := snd (dataTurns n this0 packet0 node) in
  (forall j, j <= n -> bytesAvailable (snd (dataTurns j this0 packet0 node)) <> 0) ->
  (Z.of_nat (bytesAvailable (afterId packet)) < bytesRead this packet node)%Z ->
  (forall fuel, n < fuel ->
     dataLoop fuel this0 packet0 node = Some (dataBody this packet node)) /\
  (forall k, k <> subRecordId packet ->
     QHash_value (table (fst (dataBody this packet node))) k = QHash_value (table this) k) /\
  (subRecordId packet = tracker this -> fst (dataBody this packet node) = this) /\
  (subRecordId packet <> tracker this ->
   QHash_value (table (fst (dataBody this packet node))) (subRecordId packet)
   = Some (fst (parseDataFromBuffer (fst (findOrAdd this (subRecordId packet) node))
                  (parseBuffer (afterId packet))))) /\
  ((forall avatar buffer, (0 <= snd (parseDataFromBuffer avatar buffer))%Z) ->
   dataPacket this0 packet0 node = Some (fst (dataBody this packet node))).
Proof.
  intros this packet Hav Hshort.
  assert (Hend : bytesAvailable (snd (dataBody this packet node)) = 0).
  { rewrite processAvatarDataPacket_body_cursor. apply seek_past_end. lia. }
  assert (Hloop : forall fuel, n < fuel ->
             dataLoop fuel this0 packet0 node = Some (dataBody this packet node)).
  { intros fuel Hfuel. replace fuel with (n + S (fuel - S n)) by lia.
    rewrite processAvatarDataPacket_loop_turns by (intros j Hj; apply Hav; lia).
    fold this packet.
    rewrite processAvatarDataPacket_loop_S by (apply Hav; lia).
    rewrite processAvatarDataPacket_loop_done by exact Hend.
    now destruct (dataBody this packet node). }
  split; [exact Hloop|]. split; [|split; [|split]].
  - intros k Hk. now apply processAvatarDataPacket_body_value_other.
  - intros Hid. rewrite processAvatarDataPacket_body_eq. cbv zeta.
    now rewrite Hid, QUuid_eqb_refl.
  - intros Hid. rewrite processAvatarDataPacket_body_eq. cbv zeta.
    rewrite QUuid_eqb_neq by exact Hid. cbn [negb fst].
    rewrite viaPointer_value, valueOrAddAvatar_value. reflexivity.
  - intros Hnonneg. unfold processAvatarDataPacket. rewrite Hloop; [reflexivity|].
    pose proof (processAvatarDataPacket_turns_available Hnonneg node n this0 packet0) as Hle.
    assert (Hn : bytesAvailable (snd (dataTurns n this0 packet0 node)) <> 0)
      by (apply Hav; lia).
    assert (forall j, j < n -> bytesAvailable (snd (dataTurns j this0 packet0 node)) <> 0)
      by (intros j Hj; apply Hav; lia).
    specialize (Hle H). lia.
Qed.

(** C8.  Each identity change stores the old id in the one slot, whatever
    was there: after two changes the slot holds the second old id, a
    sub-record keyed by it is discarded, and a sub-record keyed by the first
    old id, discarded before the second change, is parsed into a record. *)
Theorem previous_id_single_slot this new1 old1 new2 old2 :
  let this1 := sessionUUIDChanged this new1 old1 in
  let this2 := sessionUUIDChanged this1 new2 old2 in
  tracker this1 = old1 /\ tracker this2 = old2 /\ table this2 = table this /\
  (forall packet node,
      subRecordId packet = old2 -> fst (dataBody this2 packet node) = this2) /\
  (old1 <> old2 ->
   forall packet node,
     subRecordId packet = old1 ->
     fst (dataBody this1 packet node) = this1 /\
     QHash_value (table (fst (dataBody this2 packet node))) old1
     = Some (fst (parseDataFromBuffer (fst (findOrAdd this2 old1 node))
                    (parseBuffer (afterId packet))))).
Proof.
  intros this1 this2. split; [reflexivity|]. split; [reflexivity|]. split; [reflexivity|].
  split.
  - intros packet node Hid. rewrite processAvatarDataPacket_body_eq. cbv zeta.
    rewrite Hid. cbn [_lastOwnerSessionUUID this2 sessionUUIDChanged].
    now rewrite QUuid_eqb_refl.
  - intros Hne packet node Hid. split.
    + rewrite processAvatarDataPacket_body_eq. cbv zeta.
      rewrite Hid. cbn [_lastOwnerSessionUUID this1 sessionUUIDChanged].
      now rewrite QUuid_eqb_refl.
    + rewrite processAvatarDataPacket_body_eq. cbv zeta.
      rewrite Hid. cbn [_lastOwnerSessionUUID this2 sessionUUIDChanged].
      rewrite QUuid_eqb_neq by exact Hne. cbn [negb fst].
      rewrite viaPointer_value, valueOrAddAvatar_value. reflexivity.
Qed.

(** *** Range query *)

Lemma isAvatarInRange_foreach_true (avatars : list Avatar) position range :
  isAvatarInRange_foreach float_lt glm_distance avatars position range = true <->
  exists avatar,
    In avatar avatars /\ float_lt (glm_distance (getPosition avatar) position) range = true.
Proof.
  induction avatars as [|a avatars IH]; simpl.
  - split; [discriminate|]. intros [a [[] _]].
  - destruct (float_lt (glm_distance (getPosition a) position) range) eqn:E.
    + split; [|reflexivity]. intros _. exists a. split; [now left|exact E].
    + rewrite IH. split.
      * intros [b [Hb Hlt]]. exists b. split; [now right|exact Hlt].
      * intros [b [[<-|Hb] Hlt]]; [congruence|]. exists b. now split.
Qed.

(** The scan of [isAvatarInRange], whatever the distance and the comparison
    are: the answer is true exactly when the comparison holds of the
    distance of some stored record; the registry is returned as it is. *)
Lemma isAvatarInRange_strictly_closer this (position : vec3) (range : float) :
  (fst (isAvatarInRange float_lt glm_distance this position range) = true <->
   exists k avatar,
     In (k, avatar) (table this) /\
     float_lt (glm_distance (getPosition avatar) position) range = true) /\
  snd (isAvatarInRange float_lt glm_distance this position range) = this /\
  (float_lt range range = false ->
   (forall k avatar,
       In (k, avatar) (table this) -> glm_distance (getPosition avatar) position = range) ->
   fst (isAvatarInRange float_lt glm_distance this position range) = false).
Proof.
  assert (Hiff :
    fst (isAvatarInRange float_lt glm_distance this position range) = true <->
    exists k avatar,
      In (k, avatar) (table this) /\
      float_lt (glm_distance (getPosition avatar) position) range = true).
  { unfold isAvatarInRange. cbn [fst]. rewrite isAvatarInRange_foreach_true.
    unfold QHash_values. split.
    - intros [a [Hin Hlt]]. apply in_map_iff in Hin. destruct Hin as [[k a'] [Heq Hin]].
      simpl in Heq. subst a'. exists k, a. now split.
    - intros [k [a [Hin Hlt]]]. exists a. split; [|exact Hlt].
      apply in_map_iff. exists (k, a). now split. }
  split; [exact Hiff|]. split; [reflexivity|].
  intros Hirr Hall.
  apply not_true_is_false. intros E. apply Hiff in E. destruct E as [k [a [Hin Hlt]]].
  rewrite (Hall k a Hin) in Hlt. congruence.
Qed.

(** *** Removal *)

Lemma subRecordId_newPacket_toRfc4122 id :
  (id < 2 ^ 128)%N -> subRecordId (newPacket (QUuid_toRfc4122 id)) = id.
Proof.
  intros Hid. unfold subRecordId, read, newPacket. cbn [fst getPayload pos skipn].
  rewrite firstn_all2.
  - now apply QUuid_fromRfc4122_toRfc4122.
  - unfold QUuid_toRfc4122. rewrite bigEndian_length. unfold NUM_BYTES_RFC4122_UUID. lia.
Qed.

(** C4.  Removal leaves no record under the id, keeps every record stored
    under another id and the previous-id slot, changes nothing when the id
    has no record, and so changes nothing when repeated; the kill handler
    is removal of the id read from the packet, for every id a packet can
    carry. *)
Theorem removal_is_idempotent this id :
  let this' := removeAvatar this id in
  QHash_value (table this') id = None /\
  ~ In id (QHash_keys (table this')) /\
  (forall k avatar, k <> id -> (In (k, avatar) (table this') <-> In (k, avatar) (table this))) /\
  (forall k, k <> id -> QHash_value (table this') k = QHash_value (table this) k) /\
  tracker this' = tracker this /\
  removeAvatar this' id = this' /\
  (QHash_value (table this) id = None -> this' = this) /\
  (forall packet node,
      processKillAvatar this packet node = removeAvatar this (subRecordId packet)) /\
  (forall node,
      (id < 2 ^ 128)%N ->
      processKillAvatar this (newPacket (QUuid_toRfc4122 id)) node = this').
Proof.
  intros this'. unfold this', removeAvatar. cbn [_avatarHash _lastOwnerSessionUUID withAvatarHash].
  split; [apply QHash_value_remove|].
  split; [apply QHash_remove_not_In|].
  split.
  { intros k a Hk. rewrite QHash_In_remove.
    split; [intros [H _]; exact H|intros H; split; [exact H|exact Hk]]. }
  split; [intros k Hk; now apply QHash_value_remove_other|].
  split; [reflexivity|].
  split; [now rewrite QHash_remove_twice|].
  split.
  { intros Hv. rewrite QHash_remove_absent by exact Hv. now destruct this. }
  split; [reflexivity|].
  intros node Hid. rewrite processKillAvatar_eq, subRecordId_newPacket_toRfc4122 by exact Hid.
  reflexivity.
Qed.

(** *** Guarded writes *)

Lemma applyIdentity_setterCalls (t : IdentityTuple AttachmentData) avatar :
  setterCalls (applyIdentity AttachmentData_eq_dec t avatar)
  = differingFields AttachmentData_eq_dec t avatar ++ setterCalls avatar.
Proof. identity_cases AttachmentData_eq_dec t avatar; reflexivity. Qed.

Lemma applyIdentity_written (t : IdentityTuple AttachmentData) avatar :
  let avatar' := applyIdentity AttachmentData_eq_dec t avatar in
  getFaceModelURL avatar' = id_faceMeshURL t /\
  getSkeletonModelURL avatar' = id_skeletonURL t /\
  getAttachmentData avatar' = id_attachmentData t /\
  getDisplayName avatar' = id_displayName t.
Proof. identity_cases AttachmentData_eq_dec t avatar; repeat split; assumption || reflexivity. Qed.

Lemma applyIdentity_frame (t : IdentityTuple AttachmentData) avatar :
  let avatar' := applyIdentity AttachmentData_eq_dec t avatar in
  getSessionUUID avatar' = getSessionUUID avatar /\
  getOwningAvatarMixer avatar' = getOwningAvatarMixer avatar /\
  getPosition avatar' = getPosition avatar /\
  getBillboard avatar' = getBillboard avatar.
Proof. identity_cases AttachmentData_eq_dec t avatar; repeat split; reflexivity. Qed.

Lemma applyIdentity_equal (t : IdentityTuple AttachmentData) avatar :
  getFaceModelURL avatar = id_faceMeshURL t ->
  getSkeletonModelURL avatar = id_skeletonURL t ->
  getAttachmentData avatar = id_attachmentData t ->
  getDisplayName avatar = id_displayName t ->
  applyIdentity AttachmentData_eq_dec t avatar = avatar.
Proof. intros. identity_cases AttachmentData_eq_dec t avatar; congruence. Qed.

(** C5.  An identity tuple for an id that has a record: the record becomes
    the result of the four guarded writes, whose setter calls are exactly
    those of the fields whose stored value differs from the incoming one;
    afterwards the four fields hold the incoming values and the other
    fields what they held; records under other ids, the keys and the
    previous-id slot are unchanged.  A tuple equal to the stored values
    leaves the registry as it is, and a tuple that differs in one field
    only makes that field's setter call and no other. *)
Theorem identity_writes_only_differences node this (t : IdentityTuple AttachmentData) avatar :
  QHash_value (table this) (id_sessionUUID t) = Some avatar ->
  let this' := identityBody node this t in
  let avatar' := applyIdentity AttachmentData_eq_dec t avatar in
  QHash_value (table this') (id_sessionUUID t) = Some avatar' /\
  setterCalls avatar' = differingFields AttachmentData_eq_dec t avatar ++ setterCalls avatar /\
  (getFaceModelURL avatar' = id_faceMeshURL t /\
   getSkeletonModelURL avatar' = id_skeletonURL t /\
   getAttachmentData avatar' = id_attachmentData t /\
   getDisplayName avatar' = id_displayName t) /\
  (getSessionUUID avatar' = getSessionUUID avatar /\
   getOwningAvatarMixer avatar' = getOwningAvatarMixer avatar /\
   getPosition avatar' = getPosition avatar /\
   getBillboard avatar' = getBillboard avatar) /\
  (forall k other,
      k <> id_sessionUUID t -> (In (k, other) (table this') <-> In (k, other) (table this))) /\
  QHash_keys (table this') = QHash_keys (table this) /\
  tracker this' = tracker this /\
  (getFaceModelURL avatar = id_faceMeshURL t ->
   getSkeletonModelURL avatar = id_skeletonURL t ->
   getAttachmentData avatar = id_attachmentData t ->
   getDisplayName avatar = id_displayName t ->
   this' = this) /\
  (getFaceModelURL avatar <> id_faceMeshURL t ->
   getSkeletonModelURL avatar = id_skeletonURL t ->
   getAttachmentData avatar = id_attachmentData t ->
   getDisplayName avatar = id_displayName t ->
   avatar' = setFaceModelURL (id_faceMeshURL t) avatar) /\
  (getFaceModelURL avatar = id_faceMeshURL t ->
   getSkeletonModelURL avatar <> id_skeletonURL t ->
   getAttachmentData avatar = id_attachmentData t ->
   getDisplayName avatar = id_displayName t ->
   avatar' = setSkeletonModelURL (id_skeletonURL t) avatar) /\
  (getFaceModelURL avatar = id_faceMeshURL t ->
   getSkeletonModelURL avatar = id_skeletonURL t ->
   getAttachmentData avatar <> id_attachmentData t ->
   getDisplayName avatar = id_displayName t ->
   avatar' = setAttachmentData (id_attachmentData t) avatar) /\
  (getFaceModelURL avatar = id_faceMeshURL t ->
   getSkeletonModelURL avatar = id_skeletonURL t ->
   getAttachmentData avatar = id_attachmentData t ->
   getDisplayName avatar <> id_displayName t ->
   avatar' = setDisplayName (id_displayName t) avatar).
Proof.
  intros Hv this' avatar'.
  assert (Hthis' : this' = viaPointer (id_sessionUUID t) (applyIdentity AttachmentData_eq_dec t) this).
  { unfold this'. rewrite processAvatarIdentityPacket_body_eq.
    now rewrite valueOrAddAvatar_found with (avatar := avatar) by exact Hv. }
  split. { rewrite Hthis', viaPointer_value, Hv. reflexivity. }
  split; [apply applyIdentity_setterCalls|].
  split; [apply applyIdentity_written|].
  split; [apply applyIdentity_frame|].
  split. { intros k other Hk. rewrite Hthis'. now apply QHash_In_modify_other. }
  split. { rewrite Hthis'. apply viaPointer_keys. }
  split. { now rewrite Hthis'. }
  split.
  { intros H1 H2 H3 H4. rewrite Hthis'.
    apply viaPointer_same with (avatar := avatar); [exact Hv|].
    now apply applyIdentity_equal. }
  unfold avatar'. repeat split; intros H1 H2 H3 H4;
    identity_cases AttachmentData_eq_dec t avatar; congruence.
Qed.

(** *** Billboard *)

Lemma billboard_blob packet :
  NUM_BYTES_RFC4122_UUID <= bytesAvailable packet ->
  fst (read (bytesAvailable (afterId packet)) (afterId packet))
  = skipn (pos packet + NUM_BYTES_RFC4122_UUID) (getPayload packet).
Proof.
  intros H16. rewrite read_all. unfold afterId. rewrite read_payload, read_pos.
  f_equal. lia.
Qed.

Lemma applyBillboard_frame (billboard : QByteArray) avatar :
  let avatar' := applyBillboard billboard avatar in
  getBillboard avatar' = billboard /\
  getSessionUUID avatar' = getSessionUUID avatar /\
  getOwningAvatarMixer avatar' = getOwningAvatarMixer avatar /\
  getPosition avatar' = getPosition avatar /\
  getFaceModelURL avatar' = getFaceModelURL avatar /\
  getSkeletonModelURL avatar' = getSkeletonModelURL avatar /\
  getAttachmentData avatar' = getAttachmentData avatar /\
  getDisplayName avatar' = getDisplayName avatar.
Proof.
  unfold applyBillboard. destruct (QByteArray_eq_dec (getBillboard avatar) billboard);
    repeat split; assumption || reflexivity.
Qed.

(** C6.  A billboard packet with at least 16 bytes at the cursor: the id is
    read from the first 16 and the blob is all that follows; the record is
    the stored one, or the one [addAvatar] creates; it is left as it is
    when it already holds the blob and gets one [setBillboard] call
    otherwise; its other fields, the records under other ids and the
    previous-id slot are unchanged. *)
Theorem billboard_replaced_when_different this packet node :
  NUM_BYTES_RFC4122_UUID <= bytesAvailable packet ->
  let id :=
    QUuid_fromRfc4122 (firstn NUM_BYTES_RFC4122_UUID (skipn (pos packet) (getPayload packet))) in
  let blob := skipn (pos packet + NUM_BYTES_RFC4122_UUID) (getPayload packet) in
  let avatar := fst (findOrAdd this id node) in
  let this' := billboardPacket this packet node in
  (QHash_value (table this) id = None -> avatar = added id node) /\
  (forall stored, QHash_value (table this) id = Some stored -> avatar = stored) /\
  QHash_value (table this') id = Some (applyBillboard blob avatar) /\
  (getBillboard avatar = blob -> applyBillboard blob avatar = avatar) /\
  (getBillboard avatar <> blob -> applyBillboard blob avatar = setBillboard blob avatar) /\
  (getBillboard (applyBillboard blob avatar) = blob /\
   getSessionUUID (applyBillboard blob avatar) = getSessionUUID avatar /\
   getOwningAvatarMixer (applyBillboard blob avatar) = getOwningAvatarMixer avatar /\
   getPosition (applyBillboard blob avatar) = getPosition avatar /\
   getFaceModelURL (applyBillboard blob avatar) = getFaceModelURL avatar /\
   getSkeletonModelURL (applyBillboard blob avatar) = getSkeletonModelURL avatar /\
   getAttachmentData (applyBillboard blob avatar) = getAttachmentData avatar /\
   getDisplayName (applyBillboard blob avatar) = getDisplayName avatar) /\
  (forall k, k <> id -> QHash_value (table this') k = QHash_value (table this) k) /\
  tracker this' = tracker this /\
  (forall stored,
      QHash_value (table this) id = Some stored -> getBillboard stored = blob -> this' = this).
Proof.
  intros H16 id blob avatar this'.
  assert (Hthis' : this' = viaPointer id (applyBillboard blob) (snd (findOrAdd this id node))).
  { unfold this'. rewrite processAvatarBillboardPacket_eq, billboard_blob by exact H16.
    reflexivity. }
  split. { intros Hv. unfold avatar. now rewrite valueOrAddAvatar_absent by exact Hv. }
  split.
  { intros stored Hv. unfold avatar.
    now rewrite valueOrAddAvatar_found with (avatar := stored) by exact Hv. }
  split. { rewrite Hthis', viaPointer_value, valueOrAddAvatar_value. reflexivity. }
  split. { intros E. unfold applyBillboard. now destruct (QByteArray_eq_dec _ _). }
  split. { intros E. unfold applyBillboard. now destruct (QByteArray_eq_dec _ _). }
  split; [apply applyBillboard_frame|].
  split.
  { intros k Hk. rewrite Hthis', viaPointer_value_other by exact Hk.
    now apply valueOrAddAvatar_value_other. }
  split. { rewrite Hthis', viaPointer_tracker. apply valueOrAddAvatar_tracker. }
  intros stored Hv Hb. rewrite Hthis'.
  rewrite valueOrAddAvatar_found with (avatar := stored) by exact Hv. cbn [snd].
  apply viaPointer_same with (avatar := stored); [exact Hv|].
  unfold applyBillboard. now destruct (QByteArray_eq_dec _ _).
Qed.

(** *** A change of the previous id and the other handlers *)

Lemma valueOrAddAvatar_changed this id node a b :
  findOrAdd (sessionUUIDChanged this a b) id node
  = (fst (findOrAdd this id node), sessionUUIDChanged (snd (findOrAdd this id node)) a b).
Proof.
  unfold valueOrAddAvatar. cbn [sessionUUIDChanged _avatarHash].
  now destruct (QHash_value (table this) id).
Qed.

Lemma processAvatarIdentityPacket_body_changed node this (t : IdentityTuple AttachmentData) a b :
  identityBody node (sessionUUIDChanged this a b) t
  = sessionUUIDChanged (identityBody node this t) a b.
Proof.
  rewrite !processAvatarIdentityPacket_body_eq, valueOrAddAvatar_changed. reflexivity.
Qed.

Lemma processAvatarIdentityPacket_changed this packet node a b :
  identityPacket (sessionUUIDChanged this a b) packet node
  = sessionUUIDChanged (identityPacket this packet node) a b.
Proof.
  unfold processAvatarIdentityPacket. generalize (readIdentityStream packet) as tuples.
  intros tuples. revert this. induction tuples as [|t tuples IH]; intros this; simpl.
  - reflexivity.
  - rewrite processAvatarIdentityPacket_body_changed. apply IH.
Qed.

Lemma processAvatarBillboardPacket_changed this packet node a b :
  billboardPacket (sessionUUIDChanged this a b) packet node
  = sessionUUIDChanged (billboardPacket this packet node) a b.
Proof.
  rewrite !processAvatarBillboardPacket_eq, valueOrAddAvatar_changed. reflexivity.
Qed.

(** *** What the parser is handed, and [addAvatar] on its own *)

Lemma parseBuffer_afterId packet :
  parseBuffer (afterId packet)
  = firstn (pos packet + Nat.min NUM_BYTES_RFC4122_UUID (bytesAvailable packet))
      (getPayload packet).
Proof.
  unfold parseBuffer, QByteArray_fromRawData, afterId.
  now rewrite read_payload, read_pos.
Qed.

Lemma subRecordId_consumed packet :
  subRecordId packet
  = QUuid_fromRfc4122
      (skipn (pos packet) (firstn (pos packet + NUM_BYTES_RFC4122_UUID) (getPayload packet))).
Proof.
  unfold subRecordId, read. cbn [fst]. now rewrite firstn_skipn_comm.
Qed.

(** X1.  A turn of the bulk-data loop runs [parseDataFromBuffer] on the
    payload from its start up to the cursor behind the id, whatever lies
    behind that cursor: the turn is the turn of a parser that is given that
    prefix and ignores its buffer, and two packets with the same cursor and
    the same bytes up to the end of the id leave the same registry and the
    same cursor position, however their sub-record bodies differ. *)
Theorem parser_is_handed_the_consumed_prefix this packet node :
  processAvatarDataPacket_body vec3_zero parseDataFromBuffer this packet node
  = processAvatarDataPacket_body vec3_zero
      (fun avatar _ =>
         parseDataFromBuffer avatar
           (firstn (pos packet + Nat.min NUM_BYTES_RFC4122_UUID (bytesAvailable packet))
              (getPayload packet)))
      this packet node /\
  (forall other,
      pos other = pos packet ->
      NUM_BYTES_RFC4122_UUID <= bytesAvailable packet ->
      NUM_BYTES_RFC4122_UUID <= bytesAvailable other ->
      firstn (pos other + NUM_BYTES_RFC4122_UUID) (getPayload other)
      = firstn (pos packet + NUM_BYTES_RFC4122_UUID) (getPayload packet) ->
      fst (processAvatarDataPacket_body vec3_zero parseDataFromBuffer this other node)
      = fst (processAvatarDataPacket_body vec3_zero parseDataFromBuffer this packet node) /\
      pos (snd (processAvatarDataPacket_body vec3_zero parseDataFromBuffer this other node))
      = pos (snd (processAvatarDataPacket_body vec3_zero parseDataFromBuffer this packet node))).
Proof.
  split.
  - pose proof (parseBuffer_afterId packet) as Hbuf.
    unfold afterId in Hbuf. unfold processAvatarDataPacket_body.
    destruct (read NUM_BYTES_RFC4122_UUID packet) as [bytes behind].
    cbn [snd] in Hbuf. rewrite Hbuf. reflexivity.
  - intros other Hpos Hav Hav' Hprefix.
    assert (Hid : subRecordId other = subRecordId packet).
    { rewrite !subRecordId_consumed, Hprefix, Hpos. reflexivity. }
    assert (Hbuf : parseBuffer (afterId other) = parseBuffer (afterId packet)).
    { rewrite !parseBuffer_afterId, !Nat.min_l by assumption. exact Hprefix. }
    assert (Hcur : pos (afterId other) = pos (afterId packet)).
    { unfold afterId. rewrite !read_pos, !Nat.min_l by assumption. now rewrite Hpos. }
    assert (Hcount : bytesRead this other node = bytesRead this packet node).
    { unfold bytesReadOf. now rewrite Hid, Hbuf. }
    rewrite !processAvatarDataPacket_body_eq. cbv zeta.
    rewrite Hid, Hbuf, Hcur, Hcount.
    destruct (negb _); cbn [fst snd]; (split; [reflexivity|]);
      unfold seek; destruct (Z.ltb _ _); cbn [pos]; auto.
Qed.

(** X3.  [addAvatar] does not look for a stored record: it returns the new
    record and stores it under the id, in place of a record already there;
    records under other ids are kept and the keys stay distinct. *)
Theorem addAvatar_stores_new_record this id node :
  fst (addAvatar vec3_zero this id node) = added id node /\
  QHash_value (table (snd (addAvatar vec3_zero this id node))) id = Some (added id node) /\
  (forall k, k <> id ->
     QHash_value (table (snd (addAvatar vec3_zero this id node))) k
     = QHash_value (table this) k) /\
  (NoDup (QHash_keys (table this)) ->
   NoDup (QHash_keys (table (snd (addAvatar vec3_zero this id node))))).
Proof.
  unfold addAvatar. cbn [fst snd withAvatarHash _avatarHash].
  split; [reflexivity|]. split; [apply QHash_value_insert|]. split.
  - intros k Hk. now apply QHash_value_insert_other.
  - apply QHash_keys_insert_NoDup.
Qed.

End RegistryFacts.

(** ** Laws of the handlers *)

Section RegistryLaws.

Variable vec3 : Type.
Variable vec3_zero : vec3.
Variable float : Type.
Variable float_lt : float -> float -> bool.
Variable glm_distance : vec3 -> vec3 -> float.
Variable AttachmentData : Type.
Variable AttachmentData_eq_dec : forall a b : AttachmentData, {a = b} + {a <> b}.
Variable parseDataFromBuffer :
  AvatarData vec3 AttachmentData -> QByteArray -> AvatarData vec3 AttachmentData * Z.
Variable readIdentityStream : NLPacket -> list (IdentityTuple AttachmentData).

Local Abbreviation Avatar := (AvatarData vec3 AttachmentData).
Local Abbreviation Registry := (AvatarHashMap vec3 AttachmentData).
Local Abbreviation Tuple := (IdentityTuple AttachmentData).
Local Abbreviation fresh := (AvatarData_new vec3_zero AttachmentData).
Local Abbreviation findOrAdd := (valueOrAddAvatar vec3_zero).
Local Abbreviation dataBody := (processAvatarDataPacket_body vec3_zero parseDataFromBuffer).
Local Abbreviation dataLoop := (processAvatarDataPacket_loop vec3_zero parseDataFromBuffer).
Local Abbreviation dataPacket := (processAvatarDataPacket vec3_zero parseDataFromBuffer).
Local Abbreviation identityBody := (processAvatarIdentityPacket_body vec3_zero AttachmentData_eq_dec).
Local Abbreviation identityPacket :=
  (processAvatarIdentityPacket vec3_zero AttachmentData_eq_dec readIdentityStream).
Local Abbreviation billboardPacket := (processAvatarBillboardPacket vec3_zero).
Local Abbreviation invokeOn :=
  (invoke vec3_zero AttachmentData_eq_dec parseDataFromBuffer readIdentityStream).
Local Abbreviation table this := (_avatarHash this).
Local Abbreviation tracker this := (_lastOwnerSessionUUID this).
Local Abbreviation added := (added vec3_zero AttachmentData).
Local Abbreviation holds := (@holds vec3 AttachmentData).
Local Abbreviation blobOf packet :=
  (fst (read (bytesAvailable (afterId packet)) (afterId packet))).

Implicit Types (this : Registry) (packet : NLPacket) (node : SharedNodePointer)
  (avatar : Avatar) (id k : QUuid) (t : Tuple).

(** *** Lookups after a call *)

Ltac by_key k id :=
  let Hne := fresh "Hne" in
  destruct (N.eq_dec k id) as [->|Hne];
  [rewrite ?QUuid_eqb_refl|rewrite ?(QUuid_eqb_neq _ _ Hne)].

Lemma valueOrAddAvatar_fst this id node :
  fst (findOrAdd this id node)
  = match QHash_value (table this) id with Some avatar => avatar | None => added id node end.
Proof.
  destruct (QHash_value (table this) id) as [a|] eqn:E.
  - now rewrite valueOrAddAvatar_found with (avatar := a) by exact E.
  - now rewrite valueOrAddAvatar_absent by exact E.
Qed.

Lemma valueOrAddAvatar_fst_ext this other id node :
  QHash_value (table other) id = QHash_value (table this) id ->
  fst (findOrAdd other id node) = fst (findOrAdd this id node).
Proof. intros H. now rewrite !valueOrAddAvatar_fst, H. Qed.

Lemma viaPointer_lookup id (f : Avatar -> Avatar) this k :
  QHash_value (table (viaPointer id f this)) k
  = if QUuid_eqb k id then option_map f (QHash_value (table this) id)
    else QHash_value (table this) k.
Proof.
  by_key k id; [apply viaPointer_value|now apply viaPointer_value_other].
Qed.

Lemma identity_lookup node this t k :
  QHash_value (table (identityBody node this t)) k
  = if QUuid_eqb k (id_sessionUUID t)
    then Some (applyIdentity AttachmentData_eq_dec t (fst (findOrAdd this (id_sessionUUID t) node)))
    else QHash_value (table this) k.
Proof.
  rewrite processAvatarIdentityPacket_body_eq, viaPointer_lookup.
  by_key k (id_sessionUUID t).
  - now rewrite valueOrAddAvatar_value.
  - now apply valueOrAddAvatar_value_other.
Qed.

Lemma billboard_lookup this packet node k :
  QHash_value (table (billboardPacket this packet node)) k
  = if QUuid_eqb k (subRecordId packet)
    then Some (applyBillboard (blobOf packet) (fst (findOrAdd this (subRecordId packet) node)))
    else QHash_value (table this) k.
Proof.
  rewrite processAvatarBillboardPacket_eq, viaPointer_lookup.
  by_key k (subRecordId packet).
  - now rewrite valueOrAddAvatar_value.
  - now apply valueOrAddAvatar_value_other.
Qed.

Lemma remove_lookup this id k :
  QHash_value (table (removeAvatar this id)) k
  = if QUuid_eqb k id then None else QHash_value (table this) k.
Proof.
  by_key k id; [apply QHash_value_remove|now apply QHash_value_remove_other].
Qed.

Lemma data_lookup this packet node k :
  QHash_value (table (fst (dataBody this packet node))) k
  = if QUuid_eqb (subRecordId packet) (tracker this) then QHash_value (table this) k
    else if QUuid_eqb k (subRecordId packet)
    then Some (fst (parseDataFromBuffer (fst (findOrAdd this (subRecordId packet) node))
                      (parseBuffer (afterId packet))))
    else QHash_value (table this) k.
Proof.
  rewrite processAvatarDataPacket_body_eq. cbv zeta.
  destruct (QUuid_eqb (subRecordId packet) (tracker this)); cbn [negb fst]; [reflexivity|].
  rewrite viaPointer_lookup. by_key k (subRecordId packet).
  - now rewrite valueOrAddAvatar_value.
  - now apply valueOrAddAvatar_value_other.
Qed.

(** X4.  What each handler does, told by lookups alone: the id it names
    gets the stored record (or, when there is none, the record [addAvatar]
    builds for the sending node) after the handler's guarded writes or the
    parser's pass, removal leaves nothing under its id, and the lookup of
    every other id is what it was.  A bulk-data turn for the previous own id
    changes no lookup. *)
Theorem handlers_as_lookup_updates this packet node t id k :
  fst (findOrAdd this id node)
  = match QHash_value (table this) id with Some avatar => avatar | None => added id node end /\
  QHash_value (table (identityBody node this t)) k
  = (if QUuid_eqb k (id_sessionUUID t)
     then Some (applyIdentity AttachmentData_eq_dec t (fst (findOrAdd this (id_sessionUUID t) node)))
     else QHash_value (table this) k) /\
  QHash_value (table (billboardPacket this packet node)) k
  = (if QUuid_eqb k (subRecordId packet)
     then Some (applyBillboard (blobOf packet) (fst (findOrAdd this (subRecordId packet) node)))
     else QHash_value (table this) k) /\
  QHash_value (table (processKillAvatar this packet node)) k
  = (if QUuid_eqb k (subRecordId packet) then None else QHash_value (table this) k) /\
  QHash_value (table (removeAvatar this id)) k
  = (if QUuid_eqb k id then None else QHash_value (table this) k) /\
  QHash_value (table (fst (dataBody this packet node))) k
  = (if QUuid_eqb (subRecordId packet) (tracker this) then QHash_value (table this) k
     else if QUuid_eqb k (subRecordId packet)
     then Some (fst (parseDataFromBuffer (fst (findOrAdd this (subRecordId packet) node))
                       (parseBuffer (afterId packet))))
     else QHash_value (table this) k).
Proof.
  split; [apply valueOrAddAvatar_fst|].
  split; [apply identity_lookup|].
  split; [apply billboard_lookup|].
  split; [rewrite processKillAvatar_eq; apply remove_lookup|].
  split; [apply remove_lookup|apply data_lookup].
Qed.

(** *** Calls for different ids *)

Lemma identity_fst_other node this t id node' :
  id_sessionUUID t <> id ->
  fst (findOrAdd (identityBody node this t) id node') = fst (findOrAdd this id node').
Proof.
  intros Hne. apply valueOrAddAvatar_fst_ext.
  rewrite identity_lookup, QUuid_eqb_neq by congruence. reflexivity.
Qed.

Lemma billboard_fst_other this packet node id node' :
  subRecordId packet <> id ->
  fst (findOrAdd (billboardPacket this packet node) id node') = fst (findOrAdd this id node').
Proof.
  intros Hne. apply valueOrAddAvatar_fst_ext.
  rewrite billboard_lookup, QUuid_eqb_neq by congruence. reflexivity.
Qed.

Lemma remove_fst_other this id id' node' :
  id <> id' ->
  fst (findOrAdd (removeAvatar this id) id' node') = fst (findOrAdd this id' node').
Proof.
  intros Hne. apply valueOrAddAvatar_fst_ext.
  rewrite remove_lookup, QUuid_eqb_neq by congruence. reflexivity.
Qed.

(** X5.  Calls that name different ids can be taken in either order: two
    identity tuples, two billboard packets, an identity tuple and a
    billboard packet, or a removal and either of them leave the same lookup
    for every id. *)
Theorem handlers_for_different_ids_commute this k :
  (forall node1 node2 t1 t2,
      id_sessionUUID t1 <> id_sessionUUID t2 ->
      QHash_value (table (identityBody node2 (identityBody node1 this t1) t2)) k
      = QHash_value (table (identityBody node1 (identityBody node2 this t2) t1)) k) /\
  (forall node1 node2 packet1 packet2,
      subRecordId packet1 <> subRecordId packet2 ->
      QHash_value (table (billboardPacket (billboardPacket this packet1 node1) packet2 node2)) k
      = QHash_value (table (billboardPacket (billboardPacket this packet2 node2) packet1 node1)) k) /\
  (forall node1 node2 t packet,
      id_sessionUUID t <> subRecordId packet ->
      QHash_value (table (billboardPacket (identityBody node1 this t) packet node2)) k
      = QHash_value (table (identityBody node1 (billboardPacket this packet node2) t)) k) /\
  (forall node id t,
      id <> id_sessionUUID t ->
      QHash_value (table (identityBody node (removeAvatar this id) t)) k
      = QHash_value (table (removeAvatar (identityBody node this t) id)) k) /\
  (forall node id packet,
      id <> subRecordId packet ->
      QHash_value (table (billboardPacket (removeAvatar this id) packet node)) k
      = QHash_value (table (removeAvatar (billboardPacket this packet node) id)) k).
Proof.
  split; [|split; [|split; [|split]]].
  - intros node1 node2 t1 t2 Hne.
    rewrite !identity_lookup, !identity_fst_other by congruence.
    by_key k (id_sessionUUID t2); [|reflexivity].
    now rewrite QUuid_eqb_neq by congruence.
  - intros node1 node2 packet1 packet2 Hne.
    rewrite !billboard_lookup, !billboard_fst_other by congruence.
    by_key k (subRecordId packet2); [|reflexivity].
    now rewrite QUuid_eqb_neq by congruence.
  - intros node1 node2 t packet Hne.
    rewrite billboard_lookup, !identity_lookup, billboard_lookup.
    rewrite identity_fst_other, billboard_fst_other by congruence.
    by_key k (subRecordId packet); [|reflexivity].
    now rewrite QUuid_eqb_neq by congruence.
  - intros node id t Hne.
    rewrite identity_lookup, !remove_lookup, identity_lookup, remove_fst_other by congruence.
    by_key k (id_sessionUUID t); [|reflexivity].
    now rewrite QUuid_eqb_neq by congruence.
  - intros node id packet Hne.
    rewrite billboard_lookup, !remove_lookup, billboard_lookup, remove_fst_other by congruence.
    by_key k (subRecordId packet); [|reflexivity].
    now rewrite QUuid_eqb_neq by congruence.
Qed.

(** *** Identity packets: the last tuple for an id stands *)

Lemma lastTupleFor_id id (tuples : list Tuple) t :
  lastTupleFor id tuples = Some t -> id_sessionUUID t = id.
Proof.
  induction tuples as [|t0 tuples IH]; simpl; [discriminate|].
  destruct (lastTupleFor id tuples) as [t'|].
  - intros [= <-]. now apply IH.
  - destruct (N.eq_dec (id_sessionUUID t0) id) as [E|E].
    + rewrite E, QUuid_eqb_refl. now intros [= <-].
    + rewrite QUuid_eqb_neq by exact E. discriminate.
Qed.

Lemma lastTupleFor_None id (tuples : list Tuple) :
  ~ In id (map (@id_sessionUUID AttachmentData) tuples) -> lastTupleFor id tuples = None.
Proof.
  induction tuples as [|t0 tuples IH]; simpl; [reflexivity|].
  intros Hnot. rewrite IH by (intros H; apply Hnot; now right).
  rewrite QUuid_eqb_neq by (intros H; apply Hnot; now left). reflexivity.
Qed.

Lemma lastTupleFor_None_inv id (tuples : list Tuple) :
  lastTupleFor id tuples = None -> ~ In id (map (@id_sessionUUID AttachmentData) tuples).
Proof.
  induction tuples as [|t0 tuples IH]; simpl; [intros _ []|].
  destruct (lastTupleFor id tuples) as [t'|]; [discriminate|].
  destruct (N.eq_dec (id_sessionUUID t0) id) as [E|E].
  - rewrite E, QUuid_eqb_refl. discriminate.
  - intros _ [H|H]; [contradiction|]. now apply IH.
Qed.

Lemma lastTupleFor_NoDup (tuples : list Tuple) t :
  NoDup (map (@id_sessionUUID AttachmentData) tuples) -> In t tuples ->
  lastTupleFor (id_sessionUUID t) tuples = Some t.
Proof.
  induction tuples as [|t0 tuples IH]; simpl; [intros _ []|].
  intros Hnd Hin. inversion Hnd as [|? ? Hnot Hnd']; subst.
  destruct Hin as [->|Hin].
  - rewrite lastTupleFor_None by exact Hnot. now rewrite QUuid_eqb_refl.
  - now rewrite IH.
Qed.

Lemma identity_tuples_last node (tuples : list Tuple) : forall this id,
  match lastTupleFor id tuples with
  | Some t =>
      exists avatar,
        QHash_value (table (fold_left (identityBody node) tuples this)) id = Some avatar /\
        holds avatar t
  | None =>
      QHash_value (table (fold_left (identityBody node) tuples this)) id
      = QHash_value (table this) id
  end.
Proof.
  induction tuples as [|t0 tuples IH]; intros this id; simpl; [reflexivity|].
  specialize (IH (identityBody node this t0) id).
  destruct (lastTupleFor id tuples) as [t'|]; [exact IH|].
  destruct (N.eq_dec (id_sessionUUID t0) id) as [E|E].
  - subst id. rewrite QUuid_eqb_refl. eexists. split.
    + rewrite IH, identity_lookup, QUuid_eqb_refl. reflexivity.
    + apply applyIdentity_written.
  - rewrite QUuid_eqb_neq by exact E.
    rewrite IH, identity_lookup, QUuid_eqb_neq by congruence. reflexivity.
Qed.

(** X6.  After an identity packet every id that occurs in it has a record
    whose four identity fields are those of the last tuple that carries the
    id; the lookup of an id that does not occur is what it was. *)
Theorem identity_packet_last_tuple_stands this packet node id :
  match lastTupleFor id (readIdentityStream packet) with
  | Some t =>
      id_sessionUUID t = id /\
      exists avatar,
        QHash_value (table (identityPacket this packet node)) id = Some avatar /\
        getFaceModelURL avatar = id_faceMeshURL t /\
        getSkeletonModelURL avatar = id_skeletonURL t /\
        getAttachmentData avatar = id_attachmentData t /\
        getDisplayName avatar = id_displayName t
  | None =>
      ~ In id (map (@id_sessionUUID AttachmentData) (readIdentityStream packet)) /\
      QHash_value (table (identityPacket this packet node)) id = QHash_value (table this) id
  end.
Proof.
  unfold processAvatarIdentityPacket.
  pose proof (identity_tuples_last node (readIdentityStream packet) this id) as H.
  destruct (lastTupleFor id (readIdentityStream packet)) as [t|] eqn:E.
  - split; [now apply lastTupleFor_id with (tuples := readIdentityStream packet)|exact H].
  - split; [now apply lastTupleFor_None_inv|exact H].
Qed.

(** *** The handlers that do not look at the previous id *)

(** C9.  With [X] the stored previous own id: an identity packet leaves
    under [X] a record that holds the four fields of the last tuple it
    carries for [X], and a packet of one tuple keyed [X] leaves the stored
    record, or the one [addAvatar] builds when there is none, after the
    guarded writes; a billboard packet keyed [X] leaves the stored or new
    record holding the blob; a kill packet keyed [X] leaves no record under
    [X]; and the table each of the three handlers leaves is the same
    whatever the slot holds. *)
Theorem echo_filter_only_in_bulk_data this node :
  let X := _lastOwnerSessionUUID this in
  (forall packet t,
      lastTupleFor X (readIdentityStream packet) = Some t ->
      exists avatar,
        QHash_value (table (identityPacket this packet node)) X = Some avatar /\
        getFaceModelURL avatar = id_faceMeshURL t /\
        getSkeletonModelURL avatar = id_skeletonURL t /\
        getAttachmentData avatar = id_attachmentData t /\
        getDisplayName avatar = id_displayName t) /\
  (forall packet t,
      readIdentityStream packet = [t] ->
      id_sessionUUID t = X ->
      QHash_value (table (identityPacket this packet node)) X
      = Some (applyIdentity AttachmentData_eq_dec t
                match QHash_value (table this) X with
                | Some stored => stored
                | None => added X node
                end)) /\
  (forall packet,
      subRecordId packet = X ->
      QHash_value (table (billboardPacket this packet node)) X
      = Some (applyBillboard (blobOf packet)
                match QHash_value (table this) X with
                | Some stored => stored
                | None => added X node
                end) /\
      exists avatar,
        QHash_value (table (billboardPacket this packet node)) X = Some avatar /\
        getBillboard avatar = blobOf packet) /\
  (forall packet,
      subRecordId packet = X ->
      QHash_value (table (processKillAvatar this packet node)) X = None) /\
  (forall packet sessionUUID oldUUID,
      table (identityPacket (sessionUUIDChanged this sessionUUID oldUUID) packet node)
      = table (identityPacket this packet node) /\
      table (billboardPacket (sessionUUIDChanged this sessionUUID oldUUID) packet node)
      = table (billboardPacket this packet node) /\
      table (processKillAvatar (sessionUUIDChanged this sessionUUID oldUUID) packet node)
      = table (processKillAvatar this packet node)).
Proof.
  intros X. split; [|split; [|split; [|split]]].
  - intros packet t Hlast.
    pose proof (identity_tuples_last node (readIdentityStream packet) this X) as H.
    rewrite Hlast in H. destruct H as [avatar [Hv Hh]].
    exists avatar. split; [exact Hv|exact Hh].
  - intros packet t Hstream Hid. unfold processAvatarIdentityPacket.
    rewrite Hstream. cbn [fold_left].
    rewrite identity_lookup, Hid, QUuid_eqb_refl, valueOrAddAvatar_fst. reflexivity.
  - intros packet Hid.
    assert (Hv : QHash_value (table (billboardPacket this packet node)) X
                 = Some (applyBillboard (blobOf packet)
                           match QHash_value (table this) X with
                           | Some stored => stored
                           | None => added X node
                           end)).
    { rewrite billboard_lookup, Hid, QUuid_eqb_refl, valueOrAddAvatar_fst. reflexivity. }
    split; [exact Hv|]. eexists. split; [exact Hv|]. apply applyBillboard_frame.
  - intros packet Hid. rewrite processKillAvatar_eq, Hid. apply QHash_value_remove.
  - intros packet a b. split; [|split].
    + now rewrite processAvatarIdentityPacket_changed.
    + now rewrite processAvatarBillboardPacket_changed.
    + reflexivity.
Qed.

(** *** The same packet twice *)

Lemma identity_body_holds node this t avatar :
  QHash_value (table this) (id_sessionUUID t) = Some avatar -> holds avatar t ->
  identityBody node this t = this.
Proof.
  intros Hv [H1 [H2 [H3 H4]]]. rewrite processAvatarIdentityPacket_body_eq.
  rewrite valueOrAddAvatar_found with (avatar := avatar) by exact Hv. cbn [snd].
  apply viaPointer_same with (avatar := avatar); [exact Hv|].
  now apply applyIdentity_equal.
Qed.

Lemma billboard_holds this packet node avatar :
  QHash_value (table this) (subRecordId packet) = Some avatar ->
  getBillboard avatar = blobOf packet ->
  billboardPacket this packet node = this.
Proof.
  intros Hv Hb. rewrite processAvatarBillboardPacket_eq.
  rewrite valueOrAddAvatar_found with (avatar := avatar) by exact Hv. cbn [snd].
  apply viaPointer_same with (avatar := avatar); [exact Hv|].
  unfold applyBillboard. now destruct (QByteArray_eq_dec _ _).
Qed.

(** X7.  A billboard packet, or an identity tuple, that arrives a second
    time right after the first, from whatever node, changes nothing: the
    registry is the one the first arrival left, with no further setter
    call. *)
Theorem retransmission_changes_nothing this packet node node' t :
  processAvatarBillboardPacket vec3_zero
    (processAvatarBillboardPacket vec3_zero this packet node) packet node'
  = processAvatarBillboardPacket vec3_zero this packet node /\
  processAvatarIdentityPacket_body vec3_zero AttachmentData_eq_dec node'
    (processAvatarIdentityPacket_body vec3_zero AttachmentData_eq_dec node this t) t
  = processAvatarIdentityPacket_body vec3_zero AttachmentData_eq_dec node this t.
Proof.
  split.
  - eapply billboard_holds.
    + rewrite billboard_lookup, QUuid_eqb_refl. reflexivity.
    + apply applyBillboard_frame.
  - eapply identity_body_holds.
    + rewrite identity_lookup, QUuid_eqb_refl. reflexivity.
    + apply applyIdentity_written.
Qed.

(** X8.  An identity packet whose tuples carry pairwise different ids
    changes nothing when it is processed a second time. *)
Theorem identity_packet_twice this packet node node' :
  NoDup (map (@id_sessionUUID AttachmentData) (readIdentityStream packet)) ->
  identityPacket (identityPacket this packet node) packet node'
  = identityPacket this packet node.
Proof.
  intros Hnd. unfold processAvatarIdentityPacket.
  set (tuples := readIdentityStream packet) in *.
  set (once := fold_left (identityBody node) tuples this).
  assert (Hall : forall t, In t tuples ->
            exists avatar,
              QHash_value (table once) (id_sessionUUID t) = Some avatar /\ holds avatar t).
  { intros t Hin.
    pose proof (identity_tuples_last node tuples this (id_sessionUUID t)) as H.
    now rewrite (lastTupleFor_NoDup tuples t Hnd Hin) in H. }
  clearbody once. clear Hnd.
  induction tuples as [|t0 tuples IH]; simpl; [reflexivity|].
  destruct (Hall t0 (or_introl eq_refl)) as [avatar [Hv Hh]].
  rewrite (identity_body_holds node' once t0 avatar Hv Hh).
  apply IH. intros t Hin. apply Hall. now right.
Qed.

(** *** What a call never does *)

(** X9.  Only removal drops a record: after any call that returns, an id
    that had a record still has one, unless the call is a kill packet or a
    [removeAvatar] for that very id. *)
Theorem only_removal_drops_a_record this i this' k :
  invokeOn this i = Some this' ->
  removedId i <> Some k ->
  QHash_value (table this) k <> None ->
  QHash_value (table this') k <> None.
Proof.
  intros Hinv Hrem Hk.
  destruct i as [packet node|packet node|packet node|packet node|id|id old];
    cbn [invoke removedId] in Hinv, Hrem.
  - apply (processAvatarDataPacket_ind _ vec3_zero _ parseDataFromBuffer
             (fun s => QHash_value (table s) k <> None) node) with (this := this) (packet := packet);
      [|exact Hk|exact Hinv].
    intros s p HP. rewrite data_lookup.
    destruct (QUuid_eqb (subRecordId p) (tracker s)); [exact HP|].
    destruct (QUuid_eqb k (subRecordId p)); [discriminate|exact HP].
  - injection Hinv as <-. unfold processAvatarIdentityPacket.
    apply (identity_tuples_preserve _ vec3_zero _ AttachmentData_eq_dec
             (fun s => QHash_value (table s) k <> None)); [|exact Hk].
    intros s n t HP. rewrite identity_lookup.
    destruct (QUuid_eqb k (id_sessionUUID t)); [discriminate|exact HP].
  - injection Hinv as <-. rewrite billboard_lookup.
    destruct (QUuid_eqb k (subRecordId packet)); [discriminate|exact Hk].
  - injection Hinv as <-. rewrite processKillAvatar_eq, remove_lookup.
    rewrite QUuid_eqb_neq by congruence. exact Hk.
  - injection Hinv as <-. rewrite remove_lookup.
    rewrite QUuid_eqb_neq by congruence. exact Hk.
  - injection Hinv as <-. exact Hk.
Qed.

(** X10.  Only [sessionUUIDChanged] writes the previous-id slot, and it
    writes nothing else: every packet handler and [removeAvatar] return the
    slot as they found it, and an identity change stores the old id and
    keeps the table. *)
Theorem only_uuidChanged_writes_the_slot this i this' :
  invoke vec3_zero AttachmentData_eq_dec parseDataFromBuffer readIdentityStream this i
  = Some this' ->
  match i with
  | UuidChanged _ oldUUID =>
      _lastOwnerSessionUUID this' = oldUUID /\ _avatarHash this' = _avatarHash this
  | _ => _lastOwnerSessionUUID this' = _lastOwnerSessionUUID this
  end.
Proof.
  intros Hinv.
  destruct i as [packet node|packet node|packet node|packet node|id|id old];
    cbn [invoke] in Hinv.
  - apply (processAvatarDataPacket_ind _ vec3_zero _ parseDataFromBuffer
             (fun s => tracker s = tracker this) node) with (this := this) (packet := packet);
      [|reflexivity|exact Hinv].
    intros s p HP. now rewrite processAvatarDataPacket_body_tracker.
  - injection Hinv as <-. unfold processAvatarIdentityPacket.
    apply (identity_tuples_preserve _ vec3_zero _ AttachmentData_eq_dec
             (fun s => tracker s = tracker this)); [|reflexivity].
    intros s n t HP.
    now rewrite processAvatarIdentityPacket_body_eq, viaPointer_tracker,
      valueOrAddAvatar_tracker.
  - injection Hinv as <-.
    now rewrite processAvatarBillboardPacket_eq, viaPointer_tracker,
      valueOrAddAvatar_tracker.
  - now injection Hinv as <-.
  - now injection Hinv as <-.
  - injection Hinv as <-. split; reflexivity.
Qed.

(** *** Fields a call leaves alone *)

Section FieldKept.

Variable A : Type.
Variable g : Avatar -> A.

(** Every record of the first registry is still stored in the second, with
    the same [g]. *)
Local Abbreviation kept s s' :=
  (forall k avatar,
      QHash_value (table s) k = Some avatar ->
      exists avatar', QHash_value (table s') k = Some avatar' /\ g avatar' = g avatar).

Lemma kept_trans s1 s2 s3 : kept s1 s2 -> kept s2 s3 -> kept s1 s3.
Proof.
  intros H12 H23 k a Hv. destruct (H12 k a Hv) as [a2 [Hv2 Hg2]].
  destruct (H23 k a2 Hv2) as [a3 [Hv3 Hg3]]. exists a3. split; [exact Hv3|congruence].
Qed.

Lemma identity_kept node this t :
  (forall avatar, g (applyIdentity AttachmentData_eq_dec t avatar) = g avatar) ->
  kept this (identityBody node this t).
Proof.
  intros Hg k a Hv. rewrite identity_lookup. by_key k (id_sessionUUID t).
  - eexists. split; [reflexivity|]. rewrite Hg, valueOrAddAvatar_fst, Hv. reflexivity.
  - exists a. now split.
Qed.

Lemma identity_tuples_kept node (tuples : list Tuple) this :
  (forall t avatar, g (applyIdentity AttachmentData_eq_dec t avatar) = g avatar) ->
  kept this (fold_left (identityBody node) tuples this).
Proof.
  intros Hg.
  apply (identity_tuples_preserve _ vec3_zero _ AttachmentData_eq_dec (fun s => kept this s)).
  - intros s n t HP. apply (kept_trans this s); [exact HP|].
    apply identity_kept. apply Hg.
  - intros k a Hv. exists a. now split.
Qed.

Lemma billboard_kept this packet node :
  (forall blob avatar, g (applyBillboard blob avatar) = g avatar) ->
  kept this (billboardPacket this packet node).
Proof.
  intros Hg k a Hv. rewrite billboard_lookup. by_key k (subRecordId packet).
  - eexists. split; [reflexivity|]. rewrite Hg, valueOrAddAvatar_fst, Hv. reflexivity.
  - exists a. now split.
Qed.

Lemma data_kept this packet node :
  (forall avatar buffer, g (fst (parseDataFromBuffer avatar buffer)) = g avatar) ->
  kept this (fst (dataBody this packet node)).
Proof.
  intros Hg k a Hv. rewrite data_lookup.
  destruct (QUuid_eqb (subRecordId packet) (tracker this)); [exists a; now split|].
  by_key k (subRecordId packet).
  - eexists. split; [reflexivity|]. rewrite Hg, valueOrAddAvatar_fst, Hv. reflexivity.
  - exists a. now split.
Qed.

Lemma data_packet_kept this packet node this' :
  (forall avatar buffer, g (fst (parseDataFromBuffer avatar buffer)) = g avatar) ->
  dataPacket this packet node = Some this' -> kept this this'.
Proof.
  intros Hg Hret.
  apply (processAvatarDataPacket_ind _ vec3_zero _ parseDataFromBuffer (fun s => kept this s) node)
    with (this := this) (packet := packet); [| |exact Hret].
  - intros s p HP. apply (kept_trans this s); [exact HP|]. now apply data_kept.
  - intros k a Hv. exists a. now split.
Qed.

(** A call other than bulk data keeps [g] of every record that is stored
    before and after it, when the guarded writes keep it. *)
Lemma invoke_keeps_field this i this' k avatar avatar' :
  (forall t a, g (applyIdentity AttachmentData_eq_dec t a) = g a) ->
  (forall blob a, g (applyBillboard blob a) = g a) ->
  (forall packet node, i = BulkAvatarData packet node ->
     forall a buffer, g (fst (parseDataFromBuffer a buffer)) = g a) ->
  invokeOn this i = Some this' ->
  QHash_value (table this) k = Some avatar ->
  QHash_value (table this') k = Some avatar' ->
  g avatar' = g avatar.
Proof.
  intros Hid Hbb Hdata Hinv Hv Hv'.
  assert (Hkept : kept this this' -> g avatar' = g avatar).
  { intros Hk. destruct (Hk k avatar Hv) as [a [Ha Hg]]. congruence. }
  destruct i as [packet node|packet node|packet node|packet node|id|id old];
    cbn [invoke] in Hinv.
  - apply Hkept. apply (data_packet_kept this packet node this'); [|exact Hinv].
    now apply (Hdata packet node).
  - injection Hinv as <-. apply Hkept. now apply identity_tuples_kept.
  - injection Hinv as <-. apply Hkept. now apply billboard_kept.
  - injection Hinv as <-. rewrite processKillAvatar_eq, remove_lookup in Hv'.
    destruct (QUuid_eqb k (subRecordId packet)); congruence.
  - injection Hinv as <-. rewrite remove_lookup in Hv'.
    destruct (QUuid_eqb k id); congruence.
  - injection Hinv as <-. cbn in Hv'. congruence.
Qed.

End FieldKept.

(** X11.  The owning mixer is written when a record is created and not
    again: provided the parser leaves it alone, no call changes the owner of
    a record that is stored before and after it, whichever node sent the
    packet. *)
Theorem owner_is_set_at_creation_only this i this' k avatar avatar' :
  (forall a buffer,
      getOwningAvatarMixer (fst (parseDataFromBuffer a buffer)) = getOwningAvatarMixer a) ->
  invokeOn this i = Some this' ->
  QHash_value (table this) k = Some avatar ->
  QHash_value (table this') k = Some avatar' ->
  getOwningAvatarMixer avatar' = getOwningAvatarMixer avatar.
Proof.
  intros Hparse.
  apply (invoke_keeps_field _ (@getOwningAvatarMixer vec3 AttachmentData)).
  - intros t a. apply applyIdentity_frame.
  - intros blob a. apply applyBillboard_frame.
  - intros packet node _. exact Hparse.
Qed.

(** X12.  The handlers write their own fields only, over a whole packet:
    identity, billboard, kill and identity-change calls keep the session id,
    owner and position of every record that stays stored; an identity packet
    keeps every stored billboard; a billboard packet keeps the four identity
    fields of every stored record. *)
Theorem handlers_write_their_own_fields this k avatar avatar' :
  QHash_value (table this) k = Some avatar ->
  (forall i this',
      (forall packet node, i <> BulkAvatarData packet node) ->
      invokeOn this i = Some this' ->
      QHash_value (table this') k = Some avatar' ->
      getSessionUUID avatar' = getSessionUUID avatar /\
      getOwningAvatarMixer avatar' = getOwningAvatarMixer avatar /\
      getPosition avatar' = getPosition avatar) /\
  (forall packet node,
      QHash_value (table (identityPacket this packet node)) k = Some avatar' ->
      getBillboard avatar' = getBillboard avatar) /\
  (forall packet node,
      QHash_value (table (billboardPacket this packet node)) k = Some avatar' ->
      getFaceModelURL avatar' = getFaceModelURL avatar /\
      getSkeletonModelURL avatar' = getSkeletonModelURL avatar /\
      getAttachmentData avatar' = getAttachmentData avatar /\
      getDisplayName avatar' = getDisplayName avatar).
Proof.
  intros Hv. split; [|split].
  - intros i this' Hnot Hinv Hv'.
    assert (H : (getSessionUUID avatar', getOwningAvatarMixer avatar', getPosition avatar')
                = (getSessionUUID avatar, getOwningAvatarMixer avatar, getPosition avatar)).
    { apply (invoke_keeps_field _
               (fun a : Avatar => (getSessionUUID a, getOwningAvatarMixer a, getPosition a))
               this i this' k avatar avatar'); try assumption.
      - intros t a. destruct (applyIdentity_frame _ _ AttachmentData_eq_dec t a) as [-> [-> [-> _]]].
        reflexivity.
      - intros blob a. destruct (applyBillboard_frame _ _ blob a) as [_ [-> [-> [-> _]]]].
        reflexivity.
      - intros packet node E. now destruct (Hnot packet node). }
    injection H as -> -> ->. now repeat split.
  - intros packet node Hv'.
    destruct (identity_tuples_kept _ (@getBillboard vec3 AttachmentData) node
                (readIdentityStream packet) this
                (fun t a => proj2 (proj2 (proj2 (applyIdentity_frame _ _ AttachmentData_eq_dec t a))))
                k avatar Hv) as [a [Ha Hg]].
    unfold processAvatarIdentityPacket in Hv'. congruence.
  - intros packet node Hv'.
    assert (H : (getFaceModelURL avatar', getSkeletonModelURL avatar',
                 getAttachmentData avatar', getDisplayName avatar')
                = (getFaceModelURL avatar, getSkeletonModelURL avatar,
                   getAttachmentData avatar, getDisplayName avatar)).
    { assert (Hframe : forall blob (a : Avatar),
                (getFaceModelURL (applyBillboard blob a),
                 getSkeletonModelURL (applyBillboard blob a),
                 getAttachmentData (applyBillboard blob a),
                 getDisplayName (applyBillboard blob a))
                = (getFaceModelURL a, getSkeletonModelURL a,
                   getAttachmentData a, getDisplayName a)).
      { intros blob a.
        destruct (applyBillboard_frame _ _ blob a) as [_ [_ [_ [_ [-> [-> [-> ->]]]]]]].
        reflexivity. }
      destruct (billboard_kept _
                  (fun a : Avatar => (getFaceModelURL a, getSkeletonModelURL a,
                                      getAttachmentData a, getDisplayName a))
                  this packet node Hframe k avatar Hv) as [a [Ha Hg]].
      congruence. }
    injection H as -> -> -> ->. now repeat split.
Qed.

(** *** Edge cases of the packet reads *)

Lemma subRecordId_short packet :
  bytesAvailable packet < NUM_BYTES_RFC4122_UUID -> subRecordId packet = QUuid_null.
Proof.
  intros Hshort. unfold subRecordId, QUuid_fromRfc4122.
  rewrite read_length.
  destruct (Nat.eqb_spec (Nat.min NUM_BYTES_RFC4122_UUID (bytesAvailable packet)) 16) as [E|E];
    [|reflexivity].
  unfold NUM_BYTES_RFC4122_UUID in *. lia.
Qed.

Lemma blob_short packet :
  bytesAvailable packet <= NUM_BYTES_RFC4122_UUID -> blobOf packet = [].
Proof.
  intros Hshort.
  assert (E : bytesAvailable (afterId packet) = 0).
  { unfold afterId. rewrite read_bytesAvailable. lia. }
  rewrite E. reflexivity.
Qed.

(** X13.  A packet with fewer than 16 bytes at the cursor is read as
    carrying the null id: the billboard handler stores an empty billboard
    under the null id, creating that record when there is none; the kill
    handler removes the record of the null id; a bulk-data turn discards the
    fragment when the previous own id is null (as it is until the first
    identity change) and otherwise stores a record under the null id. *)
Theorem short_packet_is_the_null_id this packet node :
  bytesAvailable packet < NUM_BYTES_RFC4122_UUID ->
  subRecordId packet = QUuid_null /\
  QHash_value (table (billboardPacket this packet node)) QUuid_null
  = Some (applyBillboard [] (fst (findOrAdd this QUuid_null node))) /\
  processKillAvatar this packet node = removeAvatar this QUuid_null /\
  (tracker this = QUuid_null -> fst (dataBody this packet node) = this) /\
  (tracker this <> QUuid_null ->
   QHash_value (table (fst (dataBody this packet node))) QUuid_null
   = Some (fst (parseDataFromBuffer (fst (findOrAdd this QUuid_null node))
                  (parseBuffer (afterId packet))))).
Proof.
  intros Hshort. pose proof (subRecordId_short packet Hshort) as Hid.
  split; [exact Hid|]. split; [|split; [|split]].
  - rewrite billboard_lookup, Hid, QUuid_eqb_refl, blob_short by lia. reflexivity.
  - now rewrite processKillAvatar_eq, Hid.
  - intros Hnull. rewrite processAvatarDataPacket_body_eq. cbv zeta.
    now rewrite Hid, Hnull, QUuid_eqb_refl.
  - intros Hnull. rewrite data_lookup, Hid.
    rewrite (QUuid_eqb_neq QUuid_null (tracker this)) by congruence.
    now rewrite QUuid_eqb_refl.
Qed.

(** X14.  A record created for an id that was removed owes nothing to the
    record removed: it is the one [addAvatar] builds for the sending node,
    after the guarded writes of the identity tuple or billboard packet, or
    the parser's pass of the bulk-data turn, that recreates it. *)
Theorem removed_id_is_recreated_fresh this id node :
  (forall t,
      id_sessionUUID t = id ->
      QHash_value (table (identityBody node (removeAvatar this id) t)) id
      = Some (applyIdentity AttachmentData_eq_dec t (added id node))) /\
  (forall packet,
      subRecordId packet = id ->
      QHash_value (table (billboardPacket (removeAvatar this id) packet node)) id
      = Some (applyBillboard (blobOf packet) (added id node))) /\
  (forall packet,
      subRecordId packet = id -> id <> tracker this ->
      QHash_value (table (fst (dataBody (removeAvatar this id) packet node))) id
      = Some (fst (parseDataFromBuffer (added id node) (parseBuffer (afterId packet))))).
Proof.
  assert (Hfresh : fst (findOrAdd (removeAvatar this id) id node) = added id node).
  { rewrite valueOrAddAvatar_fst, remove_lookup, QUuid_eqb_refl. reflexivity. }
  split; [|split].
  - intros t Hid. rewrite identity_lookup, Hid, QUuid_eqb_refl, Hfresh. reflexivity.
  - intros packet Hid. rewrite billboard_lookup, Hid, QUuid_eqb_refl, Hfresh. reflexivity.
  - intros packet Hid Hne. rewrite data_lookup, Hid. cbn [removeAvatar withAvatarHash
      _lastOwnerSessionUUID].
    rewrite (QUuid_eqb_neq id (tracker this)) by exact Hne.
    rewrite QUuid_eqb_refl, Hfresh. reflexivity.
Qed.

(** *** The range query and the stored records *)

(** X15.  The range query sees the stored records and nothing else: when
    every entry of one registry is an entry of another, a true answer on the
    first is a true answer on the second, so registries with the same
    entries, in whatever order, answer alike; removing a record never turns
    a false answer into a true one, and the new registry answers false. *)
Theorem isAvatarInRange_depends_on_entries_only this other (position : vec3) (range : float) :
  ((forall entry, In entry (table this) -> In entry (table other)) ->
   fst (isAvatarInRange float_lt glm_distance this position range) = true ->
   fst (isAvatarInRange float_lt glm_distance other position range) = true) /\
  ((forall entry, In entry (table this) <-> In entry (table other)) ->
   fst (isAvatarInRange float_lt glm_distance this position range)
   = fst (isAvatarInRange float_lt glm_distance other position range)) /\
  (forall id,
      fst (isAvatarInRange float_lt glm_distance (removeAvatar this id) position range) = true ->
      fst (isAvatarInRange float_lt glm_distance this position range) = true) /\
  fst (isAvatarInRange float_lt glm_distance (AvatarHashMap_new vec3 AttachmentData)
         position range) = false.
Proof.
  assert (Hmono : forall s s' : Registry,
            (forall entry, In entry (table s) -> In entry (table s')) ->
            fst (isAvatarInRange float_lt glm_distance s position range) = true ->
            fst (isAvatarInRange float_lt glm_distance s' position range) = true).
  { intros s s' Hincl. unfold isAvatarInRange. cbn [fst].
    rewrite !isAvatarInRange_foreach_true. intros [a [Hin Hlt]].
    exists a. split; [|exact Hlt]. unfold QHash_values in *.
    apply in_map_iff in Hin. destruct Hin as [entry [<- Hin]].
    apply in_map. now apply Hincl. }
  split; [apply Hmono|]. split; [|split].
  - intros Hsame.
    destruct (fst (isAvatarInRange float_lt glm_distance this position range)) eqn:E1;
      destruct (fst (isAvatarInRange float_lt glm_distance other position range)) eqn:E2;
      try reflexivity.
    + rewrite (Hmono this other) in E2; [discriminate|intros e; apply Hsame|exact E1].
    + rewrite (Hmono other this) in E1; [discriminate|intros e; apply Hsame|exact E2].
  - intros id. apply Hmono. intros [k a] Hin. cbn in Hin.
    apply QHash_In_remove in Hin. apply Hin.
  - reflexivity.
Qed.

(** *** A parser that reports a negative count *)

(** X16.  The cursor is moved by whatever count the parser reports, also
    backwards: with a parser that reports -16 for every sub-record, a turn
    on a packet with at least 16 bytes at the cursor puts the cursor back
    where it was, and the loop does not return within any number of
    turns. *)
Theorem negative_count_never_returns this packet node :
  (forall avatar buffer, snd (parseDataFromBuffer avatar buffer) = (-16)%Z) ->
  NUM_BYTES_RFC4122_UUID <= bytesAvailable packet ->
  snd (dataBody this packet node) = packet /\
  forall fuel, dataLoop fuel this packet node = None.
Proof.
  intros Hcount H16.
  assert (Hback : forall s : Registry, snd (dataBody s packet node) = packet).
  { intros s. rewrite processAvatarDataPacket_body_cursor.
    assert (E : bytesReadOf vec3_zero parseDataFromBuffer s packet node = (-16)%Z).
    { unfold bytesReadOf. destruct (negb _); apply Hcount. }
    rewrite E. unfold afterId. unfold seek. rewrite read_pos, read_payload.
    rewrite Nat.min_l by exact H16. unfold NUM_BYTES_RFC4122_UUID.
    destruct (Z.ltb_spec (Z.of_nat (pos packet + 16) + -16) 0); [lia|].
    destruct packet as [payload p]. cbn [getPayload pos]. f_equal. lia. }
  split; [apply Hback|].
  assert (Hav : bytesAvailable packet <> 0) by (unfold NUM_BYTES_RFC4122_UUID in H16; lia).
  intros fuel. revert this. induction fuel as [|fuel IH]; intros this.
  - simpl. apply Nat.eqb_neq in Hav. now rewrite Hav.
  - rewrite processAvatarDataPacket_loop_S by exact Hav. rewrite Hback. apply IH.
Qed.

End RegistryLaws.

(** ** The range query in single precision *)

Lemma SFltb_irrefl x : SFltb x x = false.
Proof.
  destruct x as [s|s| |s m e]; try (destruct s; reflexivity); try reflexivity.
  unfold SFltb, SFcompare.
  destruct s; rewrite Z.compare_refl, Pos.compare_cont_refl; reflexivity.
Qed.

Lemma SFltb_nan_r x : SFltb x S754_nan = false.
Proof. now destruct x. Qed.

Lemma SFltb_nan_l x : SFltb S754_nan x = false.
Proof. reflexivity. Qed.

(** C3.  [float] is binary32 and [glm::distance] of a record's position and
    the point is the rounded square root of the rounded sum of the rounded
    squares of the rounded differences.  [isAvatarInRange] answers true
    exactly when that computed distance of some stored record compares less
    than the range; a registry whose records are all at a computed distance
    equal to the range answers false; so does every registry when the range
    is not a number, and a record whose computed distance is not a number
    never counts; the registry is returned as it is. *)
Theorem isAvatarInRange_computed_distance (AttachmentData : Type)
    (this : AvatarHashMap Binary32.vec3 AttachmentData)
    (position : Binary32.vec3) (range : Binary32.float) :
  (forall ax ay az px py pz,
      Binary32.glm_distance (ax, ay, az) (px, py, pz)
      = let dx := SFsub 24 128 px ax in
        let dy := SFsub 24 128 py ay in
        let dz := SFsub 24 128 pz az in
        SFsqrt 24 128
          (SFadd 24 128 (SFadd 24 128 (SFmul 24 128 dx dx) (SFmul 24 128 dy dy))
             (SFmul 24 128 dz dz))) /\
  (fst (isAvatarInRange Binary32.float_lt Binary32.glm_distance this position range) = true <->
   exists k avatar,
     In (k, avatar) (_avatarHash this) /\
     SFltb (Binary32.glm_distance (getPosition avatar) position) range = true) /\
  snd (isAvatarInRange Binary32.float_lt Binary32.glm_distance this position range) = this /\
  ((forall k avatar,
       In (k, avatar) (_avatarHash this) ->
       Binary32.glm_distance (getPosition avatar) position = range) ->
   fst (isAvatarInRange Binary32.float_lt Binary32.glm_distance this position range) = false) /\
  (range = S754_nan ->
   fst (isAvatarInRange Binary32.float_lt Binary32.glm_distance this position range) = false) /\
  ((forall k avatar,
       In (k, avatar) (_avatarHash this) ->
       Binary32.glm_distance (getPosition avatar) position = S754_nan) ->
   fst (isAvatarInRange Binary32.float_lt Binary32.glm_distance this position range) = false).
Proof.
  destruct (isAvatarInRange_strictly_closer Binary32.vec3 Binary32.float
              Binary32.float_lt Binary32.glm_distance AttachmentData this position range)
    as [Hiff [Hsame Hequal]].
  assert (Hnone :
    (forall k avatar,
        In (k, avatar) (_avatarHash this) ->
        Binary32.float_lt (Binary32.glm_distance (getPosition avatar) position) range = false) ->
    fst (isAvatarInRange Binary32.float_lt Binary32.glm_distance this position range) = false).
  { intros Hall. apply not_true_is_false. intros E. apply Hiff in E.
    destruct E as [k [a [Hin Hlt]]]. rewrite (Hall k a Hin) in Hlt. discriminate. }
  split; [reflexivity|].
  split; [exact Hiff|]. split; [exact Hsame|]. split; [|split].
  - intros Hall. apply Hequal; [apply SFltb_irrefl|exact Hall].
  - intros ->. apply Hnone. intros k a _. apply SFltb_nan_r.
  - intros Hall. apply Hnone. intros k a Hin. rewrite (Hall k a Hin). apply SFltb_nan_l.
Qed.

(** ** The bulk-data loop on sub-records that declare their length *)

(** C2.  A sub-record keyed by the previous own id leaves the registry as it
    is, whatever the parser; the cursor, though, moves by the count the
    parser reports on the payload up to the cursor, not on the sub-record.
    On [echoThenPeer], with the previous own id [idA]: the first sub-record
    is keyed [idA] and is 4 bytes long, the second starts at byte 20 and is
    keyed [idB]; the turn leaves the registry as it is and the cursor at
    17, where the next 16 bytes read as [misreadId]; the handler returns a
    registry with records under the null id and [misreadId] and none under
    [idB]. *)
Theorem echo_subrecord_cursor_misaligned :
  (forall (parseDataFromBuffer : Sample.Avatar -> QByteArray -> Sample.Avatar * Z)
          (this : Sample.Registry) packet node,
      subRecordId packet = _lastOwnerSessionUUID this ->
      fst (processAvatarDataPacket_body Sample.vec3_zero parseDataFromBuffer this packet node)
      = this) /\
  subRecordId Sample.echoThenPeer = _lastOwnerSessionUUID Sample.afterRename /\
  snd (Sample.lengthPrefixedParser (AvatarData_new Sample.vec3_zero Sample.AttachmentData)
         (skipn (pos (afterId Sample.echoThenPeer)) (getPayload Sample.echoThenPeer)))
  = 4%Z /\
  subRecordId (mkPacket (getPayload Sample.echoThenPeer) 20) = Sample.idB /\
  processAvatarDataPacket_body Sample.vec3_zero Sample.lengthPrefixedParser
    Sample.afterRename Sample.echoThenPeer None
  = (Sample.afterRename, mkPacket (getPayload Sample.echoThenPeer) 17) /\
  subRecordId (mkPacket (getPayload Sample.echoThenPeer) 17) = Sample.misreadId /\
  Sample.misreadId <> Sample.idB /\
  option_map (fun this => QHash_keys (_avatarHash this))
    (processAvatarDataPacket Sample.vec3_zero Sample.lengthPrefixedParser
       Sample.afterRename Sample.echoThenPeer None)
  = Some [QUuid_null; Sample.misreadId] /\
  option_map (fun this => QHash_value (_avatarHash this) Sample.idB)
    (processAvatarDataPacket Sample.vec3_zero Sample.lengthPrefixedParser
       Sample.afterRename Sample.echoThenPeer None)
  = Some None.
Proof.
  split.
  - intros parser this packet node Hid.
    unfold processAvatarDataPacket_body. unfold subRecordId in Hid.
    destruct (read NUM_BYTES_RFC4122_UUID packet) as [bytes behind].
    cbn [fst] in Hid. rewrite Hid, QUuid_eqb_refl. cbn [negb].
    now destruct (parser _ _).
  - vm_compute. repeat split; try reflexivity. discriminate.
Qed.

(** C7.  On [truncatedTrailing], with the previous own id 7: the first
    sub-record stores a record under [idA]; the second is keyed [idB],
    declares 6 bytes and has 2 left behind its id.  The parser is run on the
    payload up to the cursor and reports 1: the turn leaves one byte
    available, the loop takes another turn, reads that byte as the null id
    and stores a record under it.  The handler returns; the record of [idA]
    is as the first sub-record left it, and the registry holds records
    under [idA], [idB] and the null id. *)
Theorem truncated_subrecord_not_aborted :
  let first :=
    processAvatarDataPacket_body Sample.vec3_zero Sample.lengthPrefixedParser
      Sample.withPrevious7 Sample.truncatedTrailing None in
  let second :=
    processAvatarDataPacket_body Sample.vec3_zero Sample.lengthPrefixedParser
      (fst first) (snd first) None in
  QHash_keys (_avatarHash (fst first)) = [Sample.idA] /\
  subRecordId (snd first) = Sample.idB /\
  snd (Sample.lengthPrefixedParser
         (fst (valueOrAddAvatar Sample.vec3_zero (fst first) Sample.idB None))
         (skipn (pos (afterId (snd first))) (getPayload (snd first))))
  = 6%Z /\
  bytesAvailable (afterId (snd first)) = 2 /\
  bytesReadOf Sample.vec3_zero Sample.lengthPrefixedParser (fst first) (snd first) None
  = 1%Z /\
  bytesAvailable (snd second) = 1 /\
  subRecordId (snd second) = QUuid_null /\
  option_map (fun this => QHash_keys (_avatarHash this))
    (processAvatarDataPacket Sample.vec3_zero Sample.lengthPrefixedParser
       Sample.withPrevious7 Sample.truncatedTrailing None)
  = Some [QUuid_null; Sample.idB; Sample.idA] /\
  option_map (fun this => QHash_value (_avatarHash this) Sample.idA)
    (processAvatarDataPacket Sample.vec3_zero Sample.lengthPrefixedParser
       Sample.withPrevious7 Sample.truncatedTrailing None)
  = Some (QHash_value (_avatarHash (fst first)) Sample.idA).
Proof. vm_compute. repeat split; reflexivity. Qed.

(** * Closed examples on the concrete instance *)

Lemma Sample_parse_count_nonneg avatar buffer :
  (0 <= snd (Sample.parseDataFromBuffer avatar buffer))%Z.
Proof. destruct buffer as [|x [|y [|z rest]]]; simpl; lia. Qed.

Lemma Sample_parse_keeps_sessionUUID avatar buffer :
  getSessionUUID (fst (Sample.parseDataFromBuffer avatar buffer)) = getSessionUUID avatar.
Proof. destruct buffer as [|x [|y [|z rest]]]; reflexivity. Qed.

Lemma registry_one_record_per_session_example :
  Sample.handlers Sample.empty Sample.calls = Some Sample.afterCalls /\
  NoDup (QHash_keys (_avatarHash Sample.afterCalls)).
Proof.
  assert (H : Sample.handlers Sample.empty Sample.calls = Some Sample.afterCalls)
    by (vm_compute; reflexivity).
  split; [exact H|].
  exact (proj1 (registry_one_record_per_session
                  Sample.vec3 Sample.vec3_zero Sample.AttachmentData
                  Sample.AttachmentData_eq_dec Sample.parseDataFromBuffer
                  Sample.readIdentityStream Sample.calls Sample.afterCalls H)).
Defined.

(** With the exact straight-line distance in place of the computed one the
    equivalence fails: the record of [Sample.withBob] is at the square root
    of 5 from the origin, which is less than the range 2.2360680103..., yet
    its computed distance is that very float and the answer is false. *)
Lemma isAvatarInRange_not_euclidean :
  ~ (fst (isAvatarInRange Binary32.float_lt Binary32.glm_distance Sample.withBob
            Binary32.vec3_zero Sample.sqrt5_rounded) = true <->
     exists k avatar,
       In (k, avatar) (_avatarHash Sample.withBob) /\
       Binary32.euclidean_closer (getPosition avatar) Binary32.vec3_zero
         Sample.sqrt5_rounded = true).
Proof.
  intros [_ H].
  assert (E : fst (isAvatarInRange Binary32.float_lt Binary32.glm_distance Sample.withBob
                     Binary32.vec3_zero Sample.sqrt5_rounded) = true).
  { apply H. exists Sample.idB, Sample.bob. split; [now left|vm_compute; reflexivity]. }
  vm_compute in E. discriminate E.
Defined.

Lemma isAvatarInRange_computed_distance_example :
  Binary32.glm_distance (getPosition Sample.alice) Binary32.vec3_zero = Binary32.of_Z 5 /\
  fst (isAvatarInRange Binary32.float_lt Binary32.glm_distance Sample.withAlice
         Binary32.vec3_zero (Binary32.of_Z 5)) = false /\
  fst (isAvatarInRange Binary32.float_lt Binary32.glm_distance Sample.withAlice
         Binary32.vec3_zero (Binary32.of_Z 6)) = true.
Proof.
  assert (H5 : Binary32.glm_distance (getPosition Sample.alice) Binary32.vec3_zero
               = Binary32.of_Z 5) by (vm_compute; reflexivity).
  split; [exact H5|]. split.
  - destruct (isAvatarInRange_computed_distance Sample.AttachmentData Sample.withAlice
                Binary32.vec3_zero (Binary32.of_Z 5)) as [_ [_ [_ [Hequal _]]]].
    apply Hequal. intros k avatar [H|[]]. inversion H. exact H5.
  - destruct (isAvatarInRange_computed_distance Sample.AttachmentData Sample.withAlice
                Binary32.vec3_zero (Binary32.of_Z 6)) as [_ [[_ Hsome] _]].
    apply Hsome. exists Sample.idA, Sample.alice.
    split; [now left|vm_compute; reflexivity].
Defined.

Lemma removal_is_idempotent_example :
  (Sample.idA < 2 ^ 128)%N /\
  processKillAvatar Sample.withAlice Sample.killA None = Sample.empty /\
  removeAvatar Sample.empty Sample.idA = Sample.empty.
Proof.
  assert (H : (Sample.idA < 2 ^ 128)%N) by (vm_compute; reflexivity).
  split; [exact H|].
  destruct (removal_is_idempotent Sample.vec3 Sample.AttachmentData Sample.withAlice
              Sample.idA) as [_ [_ [_ [_ [_ [Htwice [_ [_ Hkill]]]]]]]].
  split; [exact (Hkill None H)|exact Htwice].
Defined.

Lemma identity_writes_only_differences_example :
  QHash_value (_avatarHash Sample.withAlice) (id_sessionUUID Sample.renameAlice)
  = Some Sample.alice /\
  QHash_value
    (_avatarHash
       (processAvatarIdentityPacket_body Sample.vec3_zero Sample.AttachmentData_eq_dec
          None Sample.withAlice Sample.renameAlice))
    Sample.idA
  = Some (setDisplayName "Alice"%string Sample.alice).
Proof.
  assert (H : QHash_value (_avatarHash Sample.withAlice) (id_sessionUUID Sample.renameAlice)
              = Some Sample.alice) by reflexivity.
  split; [exact H|].
  exact (proj1 (identity_writes_only_differences
                  Sample.vec3 Sample.vec3_zero Sample.AttachmentData
                  Sample.AttachmentData_eq_dec None Sample.withAlice Sample.renameAlice
                  Sample.alice H)).
Defined.

Lemma billboard_replaced_when_different_example :
  NUM_BYTES_RFC4122_UUID <= bytesAvailable Sample.billboardA /\
  QHash_value
    (_avatarHash (processAvatarBillboardPacket Sample.vec3_zero Sample.empty
                    Sample.billboardA (Some 7)))
    Sample.idA
  = Some (setBillboard [x10; x20] (added Sample.vec3_zero Sample.AttachmentData Sample.idA (Some 7))).
Proof.
  assert (H : NUM_BYTES_RFC4122_UUID <= bytesAvailable Sample.billboardA)
    by (vm_compute; lia).
  split; [exact H|].
  exact (proj1 (proj2 (proj2 (billboard_replaced_when_different
                                Sample.vec3 Sample.vec3_zero Sample.AttachmentData
                                Sample.empty Sample.billboardA (Some 7) H)))).
Defined.

Lemma previous_id_single_slot_example :
  _lastOwnerSessionUUID
    (sessionUUIDChanged (sessionUUIDChanged Sample.empty 9%N Sample.idA) 10%N Sample.idB)
  = Sample.idB /\
  exists parsed,
    QHash_value
      (_avatarHash
         (fst (Sample.turn
                 (sessionUUIDChanged (sessionUUIDChanged Sample.empty 9%N Sample.idA)
                    10%N Sample.idB)
                 Sample.bulkAB None)))
      Sample.idA
    = Some parsed.
Proof.
  destruct (previous_id_single_slot
              Sample.vec3 Sample.vec3_zero Sample.AttachmentData Sample.parseDataFromBuffer
              Sample.empty 9%N Sample.idA 10%N Sample.idB) as [_ [Hslot [_ [_ Hold]]]].
  split; [exact Hslot|].
  eexists. apply Hold; [vm_compute; discriminate|vm_compute; reflexivity].
Defined.

Lemma echo_filter_only_in_bulk_data_example :
  lastTupleFor (_lastOwnerSessionUUID Sample.afterRename)
    (Sample.readIdentityStream Sample.identityA)
  = Some (mkIdentity Sample.idA EmptyString EmptyString [] "Al"%string) /\
  (exists stored,
      QHash_value
        (_avatarHash
           (processAvatarIdentityPacket Sample.vec3_zero Sample.AttachmentData_eq_dec
              Sample.readIdentityStream Sample.afterRename Sample.identityA None))
        Sample.idA
      = Some stored /\ getDisplayName stored = "Al"%string) /\
  (exists stored,
      QHash_value
        (_avatarHash (processAvatarBillboardPacket Sample.vec3_zero Sample.afterRename
                        Sample.billboardA None))
        Sample.idA
      = Some stored /\ getBillboard stored = [x10; x20]) /\
  QHash_value (_avatarHash (processKillAvatar Sample.afterRename Sample.killA None)) Sample.idA
  = None.
Proof.
  assert (Hlast : lastTupleFor (_lastOwnerSessionUUID Sample.afterRename)
                    (Sample.readIdentityStream Sample.identityA)
                  = Some (mkIdentity Sample.idA EmptyString EmptyString [] "Al"%string))
    by (vm_compute; reflexivity).
  split; [exact Hlast|].
  destruct (echo_filter_only_in_bulk_data
              Sample.vec3 Sample.vec3_zero Sample.AttachmentData Sample.AttachmentData_eq_dec
              Sample.readIdentityStream Sample.afterRename None)
    as [Hidentity [_ [Hbill [Hkill _]]]].
  split; [|split].
  - destruct (Hidentity Sample.identityA _ Hlast) as [stored [Hv [_ [_ [_ Hname]]]]].
    exists stored. split; [exact Hv|exact Hname].
  - destruct (Hbill Sample.billboardA) as [_ [stored [Hv Hb]]]; [vm_compute; reflexivity|].
    exists stored. split; [exact Hv|exact Hb].
  - apply (Hkill Sample.killA). vm_compute; reflexivity.
Defined.

Lemma stored_sessionUUID_is_key_example :
  (forall avatar buffer,
      getSessionUUID (fst (Sample.parseDataFromBuffer avatar buffer)) = getSessionUUID avatar) /\
  Sample.handlers Sample.empty Sample.calls = Some Sample.afterCalls /\
  (forall k avatar, In (k, avatar) (_avatarHash Sample.afterCalls) -> getSessionUUID avatar = k).
Proof.
  assert (H : Sample.handlers Sample.empty Sample.calls = Some Sample.afterCalls)
    by (vm_compute; reflexivity).
  split; [exact Sample_parse_keeps_sessionUUID|]. split; [exact H|].
  exact (proj1 (stored_sessionUUID_is_key
                  Sample.vec3 Sample.vec3_zero Sample.AttachmentData
                  Sample.AttachmentData_eq_dec Sample.parseDataFromBuffer
                  Sample.readIdentityStream Sample_parse_keeps_sessionUUID
                  Sample.calls Sample.afterCalls H)).
Defined.

(** The scenarios of the spec: a record at the origin is within range 1 of
    the origin, and is not once removed; a kill packet for an id that was
    never seen leaves the registry as it is. *)
Example scenario_register_query_remove :
  let registered :=
    processAvatarBillboardPacket Sample.vec3_zero Sample.empty Sample.billboardA None in
  fst (isAvatarInRange Sample.float_lt Sample.glm_distance registered
         Sample.vec3_zero (Binary32.of_Z 1)) = true /\
  fst (isAvatarInRange Sample.float_lt Sample.glm_distance
         (removeAvatar registered Sample.idA) Sample.vec3_zero (Binary32.of_Z 1)) = false.
Proof. vm_compute. split; reflexivity. Qed.

Example scenario_kill_unknown :
  processKillAvatar Sample.withAlice (newPacket (Sample.uuidBytes x1a)) None = Sample.withAlice.
Proof. reflexivity. Qed.

(** [addAvatar] itself does not look for a stored record: called for an id
    that has one it stores a new record in its place, still one per id. *)
Example addAvatar_replaces :
  snd (addAvatar Sample.vec3_zero Sample.withAlice Sample.idA None)
  = mkAvatarHashMap [(Sample.idA, added Sample.vec3_zero Sample.AttachmentData Sample.idA None)]
      QUuid_null.
Proof. reflexivity. Qed.

Lemma processAvatarDataPacket_returns_example :
  (forall avatar buffer, (0 <= snd (Sample.parseDataFromBuffer avatar buffer))%Z) /\
  exists this',
    processAvatarDataPacket Sample.vec3_zero Sample.parseDataFromBuffer
      Sample.empty Sample.bulkAB (Some 7)
    = Some this'.
Proof.
  split; [exact Sample_parse_count_nonneg|].
  exact (processAvatarDataPacket_returns
           Sample.vec3 Sample.vec3_zero Sample.AttachmentData Sample.parseDataFromBuffer
           Sample_parse_count_nonneg Sample.empty Sample.bulkAB (Some 7)).
Defined.

Lemma Sample_parse_keeps_owner avatar buffer :
  getOwningAvatarMixer (fst (Sample.parseDataFromBuffer avatar buffer))
  = getOwningAvatarMixer avatar.
Proof. destruct buffer as [|x [|y [|z rest]]]; reflexivity. Qed.

Lemma identity_packet_twice_example :
  NoDup (map (@id_sessionUUID Sample.AttachmentData)
           (Sample.readIdentityStream Sample.identityAB)) /\
  processAvatarIdentityPacket Sample.vec3_zero Sample.AttachmentData_eq_dec
    Sample.readIdentityStream
    (processAvatarIdentityPacket Sample.vec3_zero Sample.AttachmentData_eq_dec
       Sample.readIdentityStream Sample.empty Sample.identityAB None)
    Sample.identityAB (Some 7)
  = processAvatarIdentityPacket Sample.vec3_zero Sample.AttachmentData_eq_dec
      Sample.readIdentityStream Sample.empty Sample.identityAB None.
Proof.
  assert (H : NoDup (map (@id_sessionUUID Sample.AttachmentData)
                       (Sample.readIdentityStream Sample.identityAB))).
  { vm_compute. constructor; [intros [H|[]]; discriminate H|].
    constructor; [intros []|constructor]. }
  split; [exact H|].
  exact (identity_packet_twice
           Sample.vec3 Sample.vec3_zero Sample.AttachmentData Sample.AttachmentData_eq_dec
           Sample.readIdentityStream Sample.empty Sample.identityAB None (Some 7) H).
Defined.

Lemma only_removal_drops_a_record_example :
  removedId (KillAvatar Sample.killB None) <> Some Sample.idA /\
  QHash_value (_avatarHash Sample.withAlice) Sample.idA <> None /\
  QHash_value (_avatarHash (processKillAvatar Sample.withAlice Sample.killB None)) Sample.idA
  <> None.
Proof.
  assert (H1 : removedId (KillAvatar Sample.killB None) <> Some Sample.idA)
    by (vm_compute; discriminate).
  assert (H2 : QHash_value (_avatarHash Sample.withAlice) Sample.idA <> None)
    by (vm_compute; discriminate).
  split; [exact H1|]. split; [exact H2|].
  exact (only_removal_drops_a_record
           Sample.vec3 Sample.vec3_zero Sample.AttachmentData Sample.AttachmentData_eq_dec
           Sample.parseDataFromBuffer Sample.readIdentityStream
           Sample.withAlice (KillAvatar Sample.killB None)
           (processKillAvatar Sample.withAlice Sample.killB None) Sample.idA
           eq_refl H1 H2).
Defined.

Lemma only_uuidChanged_writes_the_slot_example :
  invoke Sample.vec3_zero Sample.AttachmentData_eq_dec Sample.parseDataFromBuffer
    Sample.readIdentityStream Sample.withAlice (BulkAvatarData Sample.bulkAB (Some 8))
  = Some Sample.aliceAfterBulk /\
  _lastOwnerSessionUUID Sample.aliceAfterBulk = _lastOwnerSessionUUID Sample.withAlice.
Proof.
  assert (H : invoke Sample.vec3_zero Sample.AttachmentData_eq_dec Sample.parseDataFromBuffer
                Sample.readIdentityStream Sample.withAlice
                (BulkAvatarData Sample.bulkAB (Some 8))
              = Some Sample.aliceAfterBulk) by (vm_compute; reflexivity).
  split; [exact H|].
  exact (only_uuidChanged_writes_the_slot
           Sample.vec3 Sample.vec3_zero Sample.AttachmentData Sample.AttachmentData_eq_dec
           Sample.parseDataFromBuffer Sample.readIdentityStream
           Sample.withAlice (BulkAvatarData Sample.bulkAB (Some 8)) Sample.aliceAfterBulk H).
Defined.

Lemma owner_is_set_at_creation_only_example :
  (forall a buffer,
      getOwningAvatarMixer (fst (Sample.parseDataFromBuffer a buffer))
      = getOwningAvatarMixer a) /\
  invoke Sample.vec3_zero Sample.AttachmentData_eq_dec Sample.parseDataFromBuffer
    Sample.readIdentityStream Sample.withAlice (BulkAvatarData Sample.bulkAB (Some 8))
  = Some Sample.aliceAfterBulk /\
  QHash_value (_avatarHash Sample.withAlice) Sample.idA = Some Sample.alice /\
  QHash_value (_avatarHash Sample.aliceAfterBulk) Sample.idA = Some Sample.aliceParsed /\
  getOwningAvatarMixer Sample.aliceParsed = getOwningAvatarMixer Sample.alice.
Proof.
  assert (H1 : invoke Sample.vec3_zero Sample.AttachmentData_eq_dec Sample.parseDataFromBuffer
                 Sample.readIdentityStream Sample.withAlice
                 (BulkAvatarData Sample.bulkAB (Some 8))
               = Some Sample.aliceAfterBulk) by (vm_compute; reflexivity).
  assert (H2 : QHash_value (_avatarHash Sample.withAlice) Sample.idA = Some Sample.alice)
    by reflexivity.
  assert (H3 : QHash_value (_avatarHash Sample.aliceAfterBulk) Sample.idA
               = Some Sample.aliceParsed) by (vm_compute; reflexivity).
  split; [exact Sample_parse_keeps_owner|]. split; [exact H1|]. split; [exact H2|].
  split; [exact H3|].
  exact (owner_is_set_at_creation_only
           Sample.vec3 Sample.vec3_zero Sample.AttachmentData Sample.AttachmentData_eq_dec
           Sample.parseDataFromBuffer Sample.readIdentityStream
           Sample.withAlice (BulkAvatarData Sample.bulkAB (Some 8)) Sample.aliceAfterBulk
           Sample.idA Sample.alice Sample.aliceParsed Sample_parse_keeps_owner H1 H2 H3).
Defined.

Lemma handlers_write_their_own_fields_example :
  QHash_value (_avatarHash Sample.withAlice) Sample.idA = Some Sample.alice /\
  getDisplayName (setBillboard [x10; x20] Sample.alice) = getDisplayName Sample.alice.
Proof.
  assert (H : QHash_value (_avatarHash Sample.withAlice) Sample.idA = Some Sample.alice)
    by reflexivity.
  split; [exact H|].
  destruct (handlers_write_their_own_fields
              Sample.vec3 Sample.vec3_zero Sample.AttachmentData Sample.AttachmentData_eq_dec
              Sample.parseDataFromBuffer Sample.readIdentityStream
              Sample.withAlice Sample.idA Sample.alice (setBillboard [x10; x20] Sample.alice) H)
    as [_ [_ Hbillboard]].
  apply (Hbillboard Sample.billboardA None). reflexivity.
Defined.

Lemma short_packet_is_the_null_id_example :
  bytesAvailable Sample.shortPacket < NUM_BYTES_RFC4122_UUID /\
  subRecordId Sample.shortPacket = QUuid_null /\
  QHash_value
    (_avatarHash (processAvatarBillboardPacket Sample.vec3_zero Sample.empty
                    Sample.shortPacket (Some 7)))
    QUuid_null
  = Some (added Sample.vec3_zero Sample.AttachmentData QUuid_null (Some 7)).
Proof.
  assert (H : bytesAvailable Sample.shortPacket < NUM_BYTES_RFC4122_UUID)
    by (vm_compute; lia).
  split; [exact H|].
  destruct (short_packet_is_the_null_id
              Sample.vec3 Sample.vec3_zero Sample.AttachmentData Sample.parseDataFromBuffer
              Sample.empty Sample.shortPacket (Some 7) H) as [Hid [Hbillboard _]].
  split; [exact Hid|exact Hbillboard].
Defined.

Lemma negative_count_never_returns_example :
  (forall avatar buffer, snd (Sample.backwardParser avatar buffer) = (-16)%Z) /\
  NUM_BYTES_RFC4122_UUID <= bytesAvailable Sample.bulkAB /\
  forall fuel,
    processAvatarDataPacket_loop Sample.vec3_zero Sample.backwardParser fuel
      Sample.empty Sample.bulkAB None
    = None.
Proof.
  assert (H1 : forall avatar buffer, snd (Sample.backwardParser avatar buffer) = (-16)%Z)
    by reflexivity.
  assert (H2 : NUM_BYTES_RFC4122_UUID <= bytesAvailable Sample.bulkAB) by (vm_compute; lia).
  split; [exact H1|]. split; [exact H2|].
  exact (proj2 (negative_count_never_returns
                  Sample.vec3 Sample.vec3_zero Sample.AttachmentData Sample.backwardParser
                  Sample.empty Sample.bulkAB None H1 H2)).
Defined.

Lemma parser_is_handed_the_consumed_prefix_example :
  getPayload Sample.killA <> getPayload Sample.bulkAB /\
  bytesAvailable Sample.killA = NUM_BYTES_RFC4122_UUID /\
  fst (processAvatarDataPacket_body Sample.vec3_zero Sample.parseDataFromBuffer
         Sample.empty Sample.killA (Some 7))
  = fst (processAvatarDataPacket_body Sample.vec3_zero Sample.parseDataFromBuffer
           Sample.empty Sample.bulkAB (Some 7)) /\
  pos (snd (processAvatarDataPacket_body Sample.vec3_zero Sample.parseDataFromBuffer
              Sample.empty Sample.killA (Some 7)))
  = pos (snd (processAvatarDataPacket_body Sample.vec3_zero Sample.parseDataFromBuffer
                Sample.empty Sample.bulkAB (Some 7))).
Proof.
  split; [vm_compute; discriminate|]. split; [reflexivity|].
  destruct (parser_is_handed_the_consumed_prefix
              Sample.vec3 Sample.vec3_zero Sample.AttachmentData Sample.parseDataFromBuffer
              Sample.empty Sample.bulkAB (Some 7)) as [_ Hsame].
  apply (Hsame Sample.killA).
  - reflexivity.
  - vm_compute. lia.
  - vm_compute. lia.
  - reflexivity.
Defined.
